(** * vscode-prototype: the tabular processor and the documentation validator

    A shallow embedding of [src/data_processor.py] (class [DataProcessor])
    and of [scripts/test_docs.py] (class [DocsValidator] and [main]),
    followed by the properties of the specification that concern them.

    Python methods become computations in a small state-and-exception
    monad: a method reads and updates the attributes of [self], and either
    returns a value or raises.  What the two scripts delegate to libraries
    (pandas' element-wise comparisons and reductions, [re], [yaml],
    [pathlib], [markdown], [rich]) is taken as a parameter, so that every
    theorem holds whatever those libraries compute; a library call that
    can raise gives an outcome, not a value.

    Embedded are [clean_data], [calculate_statistics], [filter_data],
    [get_column_types] and [generate_summary] of the processor, and
    [validate_all], its seven checks, [validate_external_links],
    [print_report] and [main] of the validator.  [load_data] is a call
    of pandas' CSV reader and nothing else, and is left out. *)

From Stdlib Require Import QArith Ascii.
From stdpp Require Import gmap strings list pretty sorting.

Local Open Scope Z_scope.

(** ** Python effects: exceptions and mutable attributes *)

Module Py.

(** An exception: its class name and [str(e)]. *)
Record exn := Exn { exn_class : string; exn_str : string }.

Inductive outcome (A : Type) : Type :=
| Normal (a : A)
| Raised (e : exn).
Arguments Normal {A} a.
Arguments Raised {A} e.

(** A computation over a mutable state [S].  The state that comes back
    with [Raised] is the state at the point of the [raise]: what was
    mutated before an exception stays mutated. *)
Definition M (S A : Type) : Type := S -> outcome A * S.

Definition ret {S A} (a : A) : M S A := fun s => (Normal a, s).

Definition bind {S A B} (m : M S A) (k : A -> M S B) : M S B :=
  fun s => match m s with
           | (Normal a, s') => k a s'
           | (Raised e, s') => (Raised e, s')
           end.

Definition raise {S A} (e : exn) : M S A := fun s => (Raised e, s).

(** [try: m  except Exception as e: h e]. *)
Definition try_except {S A} (m : M S A) (h : exn -> M S A) : M S A :=
  fun s => match m s with
           | (Normal a, s') => (Normal a, s')
           | (Raised e, s') => h e s'
           end.

(** [try: m  except C as e: h e], with [is_C] telling the instances of
    [C]: the other exceptions propagate. *)
Definition try_except_only {S A} (is_C : exn -> bool) (m : M S A)
    (h : exn -> M S A) : M S A :=
  fun s => match m s with
           | (Normal a, s') => (Normal a, s')
           | (Raised e, s') => if is_C e then h e s' else (Raised e, s')
           end.

Definition gets {S A} (f : S -> A) : M S A := fun s => (Normal (f s), s).
Definition modify {S} (f : S -> S) : M S unit := fun s => (Normal tt, f s).

(** The result of a library call that may raise. *)
Definition lift {S A} (o : outcome A) : M S A := fun s => (o, s).

(** [acc = a0; for x in xs: acc = body acc x]. *)
Definition for_fold {S A B} (body : B -> A -> M S B)
    : B -> list A -> M S B :=
  fix loop (acc : B) (xs : list A) : M S B :=
    match xs with
    | [] => ret acc
    | x :: xs' => bind (body acc x) (fun acc' => loop acc' xs')
    end.

(** [all(f(x) for x in xs)]: stops at the first false. *)
Fixpoint all_of {S A} (f : A -> M S bool) (xs : list A) : M S bool :=
  match xs with
  | [] => ret true
  | x :: xs' => bind (f x) (fun b => if b then all_of f xs' else ret false)
  end.

Definition result {S A} (r : outcome A * S) : outcome A := fst r.
Definition final {S A} (r : outcome A * S) : S := snd r.

End Py.
Export Py.

Declare Scope py_scope.
Delimit Scope py_scope with py.
Notation "x <- m ;; k" := (bind m (fun x => k))
  (at level 100, m at next level, right associativity) : py_scope.
Notation "m ;;; k" := (bind m (fun _ => k))
  (at level 100, right associativity) : py_scope.
Local Open Scope py_scope.

(** ** The tabular processor ([src/data_processor.py]) *)

Module Tabular.

(** A cell holds an integer or a string, or is missing ([None]/[NaN]). *)
Inductive scalar := SInt (z : Z) | SStr (s : string).
Inductive cell := Val (v : scalar) | NA.

#[global] Instance scalar_eq_dec : EqDecision scalar.
Proof. solve_decision. Defined.
#[global] Instance cell_eq_dec : EqDecision cell.
Proof. solve_decision. Defined.

(** A frame: the column labels in order and the rows in order, each row
    with its index label.  The labels are taken to be distinct, as they
    are in a frame read from a CSV file. *)
Record DataFrame := Frame {
  columns : list string;
  rows : list (Z * list cell)
}.

Inductive cmp_op := OpEq | OpGt | OpLt.

(** What pandas computes and the processor only calls: the comparison of
    a column with a scalar, and the five reductions.  [stat] is the type
    of the numbers they return. *)
Record Kernels := {
  stat : Type;
  series_cmp : cmp_op -> list cell -> scalar -> outcome (list bool);
  series_mean : list cell -> outcome stat;
  series_median : list cell -> outcome stat;
  series_std : list cell -> outcome stat;
  series_min : list cell -> outcome stat;
  series_max : list cell -> outcome stat
}.

Definition is_na (c : cell) : bool :=
  match c with NA => true | Val _ => false end.

(** [label in df.columns]. *)
Definition has_column (df : DataFrame) (label : string) : bool :=
  bool_decide (label ∈ columns df).

Fixpoint position (label : string) (labels : list string) : option nat :=
  match labels with
  | [] => None
  | l :: ls => if bool_decide (l = label) then Some O
               else S <$> position label ls
  end.

(** [df[label]]: the values of the column, or [KeyError]. *)
Definition column_values (df : DataFrame) (label : string)
    : outcome (list cell) :=
  match position label (columns df) with
  | Some i => Normal (map (fun r => nth i (snd r) NA) (rows df))
  | None => Raised (Exn "KeyError" ("'" +:+ label +:+ "'"))
  end.

Fixpoint select {A} (xs : list A) (mask : list bool) : list A :=
  match xs, mask with
  | x :: xs', b :: mask' =>
      if b then x :: select xs' mask' else select xs' mask'
  | _, _ => []
  end.

(** [df[mask]]: the rows whose mask entry is true; same columns. *)
Definition select_rows (df : DataFrame) (mask : list bool) : DataFrame :=
  Frame (columns df) (select (rows df) mask).

(** [df.dropna()]: the rows without a missing cell. *)
Definition complete (r : Z * list cell) : bool :=
  forallb (fun c => negb (is_na c)) (snd r).

Definition dropna (df : DataFrame) : DataFrame :=
  Frame (columns df) (List.filter complete (rows df)).

(** [df.drop_duplicates()]: of the rows with equal cells the first one
    is kept; the index label is not compared. *)
Fixpoint unseen (seen : list (list cell)) (rs : list (Z * list cell))
    : list (Z * list cell) :=
  match rs with
  | [] => []
  | r :: rs' =>
      if bool_decide (snd r ∈ seen) then unseen seen rs'
      else r :: unseen (snd r :: seen) rs'
  end.

Definition drop_duplicates (df : DataFrame) : DataFrame :=
  Frame (columns df) (unseen [] (rows df)).

(** *** Objects and references

    [self.data] is a reference to a frame object.  [copy], [dropna],
    [drop_duplicates] and mask indexing each build a new object; an
    assignment to [self.data] rebinds the reference. *)

Definition loc := positive.

Record store := Store {
  heap : gmap loc DataFrame;
  self_data : loc
}.

Definition new (df : DataFrame) : M store loc :=
  fun σ => let l := fresh (dom (heap σ)) in
           (Normal l, Store (<[l := df]> (heap σ)) (self_data σ)).

(** Reading through a reference.  Every reference a Python program
    holds is live, so the second branch is not reached from a store in
    which [self.data] is allocated. *)
Definition deref (l : loc) : M store DataFrame :=
  fun σ => match heap σ !! l with
           | Some df => (Normal df, σ)
           | None => (Raised (Exn "SystemError" "dangling reference"), σ)
           end.

Definition set_self_data (l : loc) : M store unit :=
  modify (fun σ => Store (heap σ) l).

Definition df_copy (l : loc) : M store loc :=
  df <- deref l ;; new df.
Definition df_dropna (l : loc) : M store loc :=
  df <- deref l ;; new (dropna df).
Definition df_drop_duplicates (l : loc) : M store loc :=
  df <- deref l ;; new (drop_duplicates df).
Definition df_getitem (l : loc) (label : string) : M store (list cell) :=
  df <- deref l ;; lift (column_values df label).
Definition df_getitem_mask (l : loc) (mask : list bool) : M store loc :=
  df <- deref l ;; new (select_rows df mask).
Definition df_contains (l : loc) (label : string) : M store bool :=
  df <- deref l ;; ret (has_column df label).

Definition condition : Type := string * string * scalar.

Section Processor.
Context (K : Kernels).

(** [DataProcessor.clean_data]. *)
Definition clean_data : M store unit :=
  d <- gets self_data ;;
  d1 <- df_dropna d ;;
  set_self_data d1 ;;;
  d <- gets self_data ;;
  d2 <- df_drop_duplicates d ;;
  set_self_data d2.

(** [DataProcessor.calculate_statistics]. *)
Definition calculate_statistics (column : string)
    : M store (list (string * stat K)) :=
  d <- gets self_data ;;
  present <- df_contains d column ;;
  if negb present then
    raise (Exn "ValueError" ("Column " +:+ column +:+ " not found in data"))
  else
    d <- gets self_data ;; c <- df_getitem d column ;;
    mean <- lift (series_mean K c) ;;
    d <- gets self_data ;; c <- df_getitem d column ;;
    median <- lift (series_median K c) ;;
    d <- gets self_data ;; c <- df_getitem d column ;;
    std <- lift (series_std K c) ;;
    d <- gets self_data ;; c <- df_getitem d column ;;
    min <- lift (series_min K c) ;;
    d <- gets self_data ;; c <- df_getitem d column ;;
    max <- lift (series_max K c) ;;
    ret [("mean", mean); ("median", median); ("std", std);
         ("min", min); ("max", max)].

(** One turn of the loop of [filter_data]: the operator is looked at
    first, the column only inside the branch taken. *)
Definition filter_step (filtered_data : loc) (c : condition)
    : M store loc :=
  let '(column, operator, value) := c in
  if bool_decide (operator = "equals") then
    col <- df_getitem filtered_data column ;;
    mask <- lift (series_cmp K OpEq col value) ;;
    df_getitem_mask filtered_data mask
  else if bool_decide (operator = "greater_than") then
    col <- df_getitem filtered_data column ;;
    mask <- lift (series_cmp K OpGt col value) ;;
    df_getitem_mask filtered_data mask
  else if bool_decide (operator = "less_than") then
    col <- df_getitem filtered_data column ;;
    mask <- lift (series_cmp K OpLt col value) ;;
    df_getitem_mask filtered_data mask
  else
    raise (Exn "ValueError" ("Unsupported operator: " +:+ operator)).

(** The shape the three branches of [filter_step] share. *)
Definition masked (op : cmp_op) (fd : loc) (column : string) (value : scalar)
    : M store loc :=
  col <- df_getitem fd column ;;
  mask <- lift (series_cmp K op col value) ;;
  df_getitem_mask fd mask.

(** [DataProcessor.filter_data]. *)
Definition filter_data (conditions : list condition) : M store loc :=
  d <- gets self_data ;;
  filtered_data <- df_copy d ;;
  for_fold filter_step filtered_data conditions.

End Processor.

(** [DataProcessor(data)]: a processor whose [data] refers to [df]. *)
Definition processor (df : DataFrame) : store :=
  Store {[ 1%positive := df ]} 1%positive.

(** The frame [self.data] refers to. *)
Definition data (σ : store) : option DataFrame := heap σ !! self_data σ.

(** [σ'] has every object of [σ], unchanged, and the same [self.data]. *)
Definition extends (σ σ' : store) : Prop :=
  self_data σ' = self_data σ ∧ heap σ ⊆ heap σ'.

End Tabular.

(** ** The documentation validator ([scripts/test_docs.py]) *)

Module Docs.

(** What [yaml.safe_load] returns, for the values a manifest is made of:
    null, booleans, integers, strings, sequences and mappings.  The keys
    of a mapping are hashable scalars. *)
Inductive ykey := KStr (s : string) | KInt (z : Z) | KBool (b : bool) | KNull.

#[global] Instance ykey_eq_dec : EqDecision ykey.
Proof. solve_decision. Defined.

#[local] Unset Elimination Schemes.
Inductive yaml :=
| YNull
| YBool (b : bool)
| YInt (z : Z)
| YStr (s : string)
| YList (items : list yaml)
| YDict (entries : list (ykey * yaml)).
#[local] Set Elimination Schemes.

Definition key_value (k : ykey) : yaml :=
  match k with
  | KStr s => YStr s
  | KInt z => YInt z
  | KBool b => YBool b
  | KNull => YNull
  end.

(** [type(v).__name__]. *)
Definition type_name (v : yaml) : string :=
  match v with
  | YNull => "NoneType"
  | YBool _ => "bool"
  | YInt _ => "int"
  | YStr _ => "str"
  | YList _ => "list"
  | YDict _ => "dict"
  end.

(** [str(k)] for a key. *)
Definition key_str (k : ykey) : string :=
  match k with
  | KStr s => s
  | KInt z => pretty z
  | KBool true => "True"
  | KBool false => "False"
  | KNull => "None"
  end.

Definition is_str_key (k : ykey) : bool :=
  match k with KStr _ => true | _ => false end.

(** [for x in v]: the items of a list, the keys of a mapping, the
    characters of a string; the other values are not iterable. *)
Definition py_iter (v : yaml) : outcome (list yaml) :=
  match v with
  | YList items => Normal items
  | YDict entries => Normal (map (fun e => key_value (fst e)) entries)
  | YStr s =>
      Normal (map (fun c => YStr (String c "")) (String.list_ascii_of_string s))
  | _ => Raised (Exn "TypeError"
                   ("'" +:+ type_name v +:+ "' object is not iterable"))
  end.

Fixpoint dict_lookup (key : string) (entries : list (ykey * yaml))
    : option yaml :=
  match entries with
  | [] => None
  | (k, v) :: rest =>
      if bool_decide (k = KStr key) then Some v else dict_lookup key rest
  end.

(** [config.get('nav', [])]. *)
Definition get_nav (config : yaml) : outcome yaml :=
  match config with
  | YDict entries => Normal (default (YList []) (dict_lookup "nav" entries))
  | _ => Raised (Exn "AttributeError"
                   ("'" +:+ type_name config +:+
                    "' object has no attribute 'get'"))
  end.

(** *** Strings *)

(** [link.startswith(('http://', 'https://'))]. *)
Definition is_url (link : string) : bool :=
  String.prefix "http://" link || String.prefix "https://" link.

(** [link.split('#')[0]]. *)
Fixpoint before_hash (link : string) : string :=
  match link with
  | EmptyString => EmptyString
  | String c rest =>
      if bool_decide (c = "#"%char) then EmptyString
      else String c (before_hash rest)
  end.

(** [s.lower()], on the letters A to Z. *)
Definition lower_char (c : ascii) : ascii :=
  let n := N_of_ascii c in
  if ((65 <=? n) && (n <=? 90))%N then ascii_of_N (n + 32) else c.

Fixpoint lower (s : string) : string :=
  match s with
  | EmptyString => EmptyString
  | String c rest => String (lower_char c) (lower rest)
  end.

(** [needle in hay]. *)
Fixpoint contains (hay needle : string) : bool :=
  String.prefix needle hay ||
  match hay with
  | EmptyString => false
  | String _ rest => contains rest needle
  end.

(** *** The world outside the script

    The files, and the libraries that read them.  Paths are the strings
    that [str(path)] gives.  Whatever asks the file system may raise:
    opening and reading a file, the existence test ([OSError] on a name
    the system refuses, one that is too long for instance) and the
    resolution of a path ([RuntimeError] on a loop of symbolic links);
    so may compiling and rendering.  Joining two paths and the pattern
    searches return. *)
Record World := {
  (** [open(path)] followed by [yaml.safe_load] *)
  open_yaml : string -> outcome yaml;
  (** [path.exists()] *)
  path_exists : string -> outcome bool;
  (** [dir / name] *)
  path_join : string -> string -> string;
  (** [(md_file.parent / link).resolve()] *)
  resolve_beside : string -> string -> outcome string;
  (** the markdown files that [docs_dir.rglob] yields, in its order *)
  rglob_md : string -> list string;
  (** [md_file.read_text()] *)
  read_text : string -> outcome string;
  (** [re.findall] with the link pattern: the (text, target) pairs *)
  find_links : string -> list (string * string);
  (** [re.findall] with the image pattern: the (alt, path) pairs *)
  find_images : string -> list (string * string);
  (** [re.finditer] with the fenced-block pattern: the (lang, code)
      groups of each match, [None] for a block without a language *)
  find_code_blocks : string -> list (option string * string);
  (** [re.findall] with the heading pattern: the (hashes, title) pairs *)
  find_headings : string -> list (string * string);
  (** [compile(code, '<string>', 'exec')] *)
  py_compile : string -> outcome unit;
  (** [markdown.markdown(content)] followed by
      [BeautifulSoup(html, 'html.parser')] *)
  render : string -> outcome unit
}.

(** [except SyntaxError] also catches its two subclasses. *)
Definition is_syntax_error (e : exn) : bool :=
  bool_decide (exn_class e ∈ ["SyntaxError"; "IndentationError"; "TabError"]).

(** *** The validator object *)

Record DocsValidator := Validator {
  docs_dir : string;
  mkdocs_file : string;
  errors : list string;
  warnings : list string
}.

(** [DocsValidator.__init__]. *)
Definition init (docs_dir mkdocs_file : string) : DocsValidator :=
  Validator docs_dir mkdocs_file [] [].

Abbreviation V := (M DocsValidator).

(** [self.errors.append(msg)] and [self.warnings.append(msg)]. *)
Definition errors_append (msg : string) : V unit :=
  modify (fun v => Validator (docs_dir v) (mkdocs_file v)
                     (errors v ++ [msg]) (warnings v)).
Definition warnings_append (msg : string) : V unit :=
  modify (fun v => Validator (docs_dir v) (mkdocs_file v)
                     (errors v) (warnings v ++ [msg])).

Section Checks.
Context (w : World).

(** [self.docs_dir / path]: only a string can be joined to a path. *)
Definition join_docs (path : yaml) : V string :=
  match path with
  | YStr p => d <- gets docs_dir ;; ret (path_join w d p)
  | _ => raise (Exn "TypeError"
                  ("unsupported operand type(s) for /: 'PosixPath' and '"
                   +:+ type_name path +:+ "'"))
  end.

(** The body of [for item in items] in [check_nav_items]. *)
Fixpoint check_nav_item (success : bool) (item : yaml) : V bool :=
  match item with
  | YDict entries =>
      for_fold (fun success entry =>
        match snd entry with
        | YList children =>
            r <- for_fold check_nav_item true children ;;
            ret (success && r)
        | path =>
            file_path <- join_docs path ;;
            present <- lift (path_exists w file_path) ;;
            if negb present then
              errors_append ("Missing file: " +:+ file_path) ;;;
              ret false
            else ret success
        end) success entries
  | _ => ret success
  end.

(** The local function [check_nav_items] of [check_files_exist]. *)
Definition check_nav_items (items : list yaml) : V bool :=
  for_fold check_nav_item true items.

(** [DocsValidator.check_files_exist]. *)
Definition check_files_exist : V bool :=
  f <- gets mkdocs_file ;;
  config <- lift (open_yaml w f) ;;
  nav <- lift (get_nav config) ;;
  items <- lift (py_iter nav) ;;
  check_nav_items items.

(** [DocsValidator.validate_internal_links]. *)
Definition validate_internal_links : V bool :=
  d <- gets docs_dir ;;
  for_fold (fun success md_file =>
    content <- lift (read_text w md_file) ;;
    for_fold (fun success text_link =>
      let link := snd text_link in
      if negb (is_url link) then
        let link := before_hash link in
        if negb (bool_decide (link = "")) then
          target <- lift (resolve_beside w md_file link) ;;
          present <- lift (path_exists w target) ;;
          if negb present then
            errors_append
              ("Broken internal link in " +:+ md_file +:+ ": " +:+ link) ;;;
            ret false
          else ret success
        else ret success
      else ret success) success (find_links w content))
    true (rglob_md w d).

(** [DocsValidator.validate_code_blocks]. *)
Definition validate_code_blocks : V bool :=
  d <- gets docs_dir ;;
  for_fold (fun success md_file =>
    content <- lift (read_text w md_file) ;;
    for_fold (fun success lang_code =>
      let '(lang, code) := lang_code in
      if bool_decide (lang = Some "python") then
        try_except_only is_syntax_error
          (lift (py_compile w code) ;;; ret success)
          (fun e =>
             errors_append
               ("Invalid Python syntax in " +:+ md_file +:+ ": "
                +:+ exn_str e) ;;;
             ret false)
      else ret success) success (find_code_blocks w content))
    true (rglob_md w d).

Definition required_sections : list string :=
  ["Class Documentation"; "Methods"; "Examples"].

(** [DocsValidator.validate_api_docs]. *)
Definition validate_api_docs : V bool :=
  d <- gets docs_dir ;;
  let api_dir := path_join w d "api" in
  present <- lift (path_exists w api_dir) ;;
  if negb present then
    errors_append "Missing API documentation directory" ;;;
    ret false
  else
    let processor_doc := path_join w api_dir "data_processor.md" in
    present <- lift (path_exists w processor_doc) ;;
    if negb present then
      errors_append "Missing DataProcessor API documentation" ;;;
      ret false
    else
      content <- lift (read_text w processor_doc) ;;
      for_fold (fun success section =>
        if negb (contains (lower content) (lower section)) then
          errors_append ("Missing section in API docs: " +:+ section) ;;;
          ret false
        else ret success) true required_sections.

(** The local function [validate_nav_item] of [validate_navigation]. *)
Fixpoint validate_nav_item (item : yaml) : V bool :=
  match item with
  | YDict entries =>
      for_fold (fun success entry =>
        success <- (if negb (is_str_key (fst entry)) then
                      errors_append
                        ("Invalid navigation title: " +:+ key_str (fst entry)) ;;;
                      ret false
                    else ret success) ;;
        match snd entry with
        | YList children =>
            for_fold (fun success child =>
              r <- validate_nav_item child ;;
              ret (success && r)) success children
        | _ => ret success
        end) true entries
  | _ => ret true
  end.

(** [DocsValidator.validate_navigation]. *)
Definition validate_navigation : V bool :=
  f <- gets mkdocs_file ;;
  config <- lift (open_yaml w f) ;;
  nav <- lift (get_nav config) ;;
  items <- lift (py_iter nav) ;;
  all_of validate_nav_item items.

(** [DocsValidator.check_image_references]. *)
Definition check_image_references : V bool :=
  d <- gets docs_dir ;;
  for_fold (fun success md_file =>
    content <- lift (read_text w md_file) ;;
    for_fold (fun success alt_path =>
      let image_path := snd alt_path in
      if negb (is_url image_path) then
        image_file <- lift (resolve_beside w md_file image_path) ;;
        present <- lift (path_exists w image_file) ;;
        if negb present then
          errors_append
            ("Missing image in " +:+ md_file +:+ ": " +:+ image_path) ;;;
          ret false
        else ret success
      else ret success) success (find_images w content))
    true (rglob_md w d).

(** The heading loop of [validate_markdown] for one file: the
    accumulator is [current_level]. *)
Definition heading_step (md_file : string) (current_level : Z)
    (heading : string * string) : V Z :=
  let '(hashes, title) := heading in
  let level := Z.of_nat (String.length hashes) in
  (if (level - current_level >? 1)%Z then
     warnings_append
       ("Skipped heading level in " +:+ md_file +:+ ": " +:+ title)
   else ret tt) ;;;
  ret level.

(** The body of the loop of [validate_markdown] over the files. *)
Definition markdown_file (success : bool) (md_file : string) : V bool :=
  content <- lift (read_text w md_file) ;;
  for_fold (heading_step md_file) 0 (find_headings w content) ;;;
  try_except
    (lift (render w content) ;;; ret success)
    (fun e =>
       errors_append
         ("Invalid markdown in " +:+ md_file +:+ ": " +:+ exn_str e) ;;;
       ret false).

(** [DocsValidator.validate_markdown]. *)
Definition validate_markdown : V bool :=
  d <- gets docs_dir ;;
  for_fold markdown_file true (rglob_md w d).

(** The list [checks] of [validate_all], each bound method with its
    [__name__]. *)
Definition checks : list (string * V bool) :=
  [ ("check_files_exist", check_files_exist);
    ("validate_internal_links", validate_internal_links);
    ("validate_code_blocks", validate_code_blocks);
    ("validate_api_docs", validate_api_docs);
    ("validate_navigation", validate_navigation);
    ("check_image_references", check_image_references);
    ("validate_markdown", validate_markdown) ].

(** One turn of the loop of [validate_all]. *)
Definition run_check (success : bool) (check : string * V bool) : V bool :=
  try_except
    (passed <- snd check ;;
     if negb passed then ret false else ret success)
    (fun e =>
       errors_append ("Error in " +:+ fst check +:+ ": " +:+ exn_str e) ;;;
       ret false).

(** The loop of [validate_all] over a list of checks. *)
Definition run_checks (cs : list (string * V bool)) : V bool :=
  for_fold run_check true cs.

(** [DocsValidator.validate_all]. *)
Definition validate_all : V bool := run_checks checks.

End Checks.

(** *** The console

    What [print_report] hands to [console.print]: a string with the
    style it is given, or a table with its title, style, column
    heading and rows.  Strings hold the bytes of their UTF-8 encoding. *)
Inductive printed :=
| Text (s : string) (style : option string)
| Table (title style column : string) (rows : list string).

(** [rich]'s [console.print].  It reads a string, and each cell of a
    table, as console markup, and raises on markup it cannot read
    ([MarkupError] on a tag that closes nothing, for instance). *)
Record Console := {
  console_print : printed -> outcome unit
}.

Definition newline : string := String "010" "".

Definition report_heading : printed :=
  Text (newline +:+ "=== Documentation Validation Report ===" +:+ newline) None.

Definition errors_table (v : DocsValidator) : printed :=
  Table "Errors" "red" "Error Message" (errors v).

Definition warnings_table (v : DocsValidator) : printed :=
  Table "Warnings" "yellow" "Warning Message" (warnings v).

Definition passed_line : printed :=
  Text (newline +:+ "✅ All documentation checks passed!" +:+ newline)
       (Some "green bold").

Section Report.
Context (c : Console).

(** One call of [console.print]; the state is what the console has
    shown so far. *)
Definition emit (p : printed) : M (list printed) unit :=
  lift (console_print c p) ;;;
  modify (fun shown => shown ++ [p]).

(** [DocsValidator.print_report]. *)
Definition print_report (v : DocsValidator) : M (list printed) unit :=
  emit report_heading ;;;
  (if negb (bool_decide (errors v = [])) then emit (errors_table v)
   else ret tt) ;;;
  (if negb (bool_decide (warnings v = [])) then emit (warnings_table v)
   else ret tt) ;;;
  if bool_decide (errors v = []) && bool_decide (warnings v = [])
  then emit passed_line
  else ret tt.

End Report.

(** [main]: what the console has shown and the exit status of the
    process.  [sys.exit] is reached when [print_report] returns; an
    exception that leaves [main] ends the process with status 1. *)
Definition main (w : World) (c : Console) : list printed * Z :=
  let validator := init "docs" "mkdocs.yml" in
  match validate_all w validator with
  | (Normal success, validator') =>
      match print_report c validator' [] with
      | (Normal _, shown) => (shown, if success then 0 else 1)
      | (Raised _, shown) => (shown, 1)
      end
  | (Raised _, _) => ([], 1)
  end.

Definition exit_status (w : World) (c : Console) : Z := snd (main w c).

(** The validator of [main] when [validate_all] has run. *)
Definition validated (w : World) : DocsValidator :=
  final (validate_all w (init "docs" "mkdocs.yml")).

(** What [print_report] prints last on a report without errors: the
    table of the warnings, or the line that all checks passed. *)
Definition closing (v : DocsValidator) : printed :=
  if bool_decide (warnings v = []) then passed_line else warnings_table v.

(** *** The manifest as the specification describes it

    A tree of nodes, each a leaf (a title and a file path) or an internal
    node (a title and its children in order); [nav_yaml] is the YAML value
    such a node is loaded as. *)
#[local] Unset Elimination Schemes.
Inductive nav_node :=
| Leaf (title path : string)
| Branch (title : string) (children : list nav_node).
#[local] Set Elimination Schemes.

Fixpoint nav_yaml (n : nav_node) : yaml :=
  match n with
  | Leaf title path => YDict [(KStr title, YStr path)]
  | Branch title children => YDict [(KStr title, YList (map nav_yaml children))]
  end.

(** The file paths of the leaves, in document order. *)
Fixpoint leaf_paths (n : nav_node) : list string :=
  match n with
  | Leaf _ path => [path]
  | Branch _ children => flat_map leaf_paths children
  end.

(** *** The orchestration as the specification describes it

    One check under the guard: a boolean result is kept; an exception
    becomes one error naming the check and the message, and counts as a
    failure. *)
Definition guarded (check : string * V bool) (v : DocsValidator)
    : bool * DocsValidator :=
  match snd check v with
  | (Normal passed, v') => (passed, v')
  | (Raised e, v') =>
      (false,
       Validator (docs_dir v') (mkdocs_file v')
         (errors v' ++ ["Error in " +:+ fst check +:+ ": " +:+ exn_str e])
         (warnings v'))
  end.

(** Every check in order, each from the state the previous one left, and
    the conjunction of the results. *)
Fixpoint guarded_all (cs : list (string * V bool)) (v : DocsValidator)
    : bool * DocsValidator :=
  match cs with
  | [] => (true, v)
  | c :: cs' =>
      let (passed, v1) := guarded c v in
      let (rest, v2) := guarded_all cs' v1 in
      (passed && rest, v2)
  end.

(** The existence test of a path returns. *)
Definition answers (w : World) (path : string) : Prop :=
  ∃ present, path_exists w path = Normal present.

(** The existence test of a path returns [False]. *)
Definition absent (w : World) (path : string) : bool :=
  match path_exists w path with
  | Normal present => negb present
  | Raised _ => false
  end.

(** The leaves of a manifest whose file is missing under [dir], as the
    paths the check resolves them to. *)
Definition missing_files (w : World) (dir : string) (paths : list string)
    : list string :=
  List.filter (absent w) (map (path_join w dir) paths).

(** *** What a computation does to the report

    [appends m d k r es ws]: on a validator with directory [d] and
    manifest [k], whatever its report holds, [m] ends with [r] and
    leaves the report with [es] appended to the errors and [ws] to the
    warnings, and the two paths as they were. *)
Definition appends {A} (m : V A) (d k : string) (r : outcome A)
    (es ws : list string) : Prop :=
  ∀ e0 w0, m (Validator d k e0 w0) = (r, Validator d k (e0 ++ es) (w0 ++ ws)).

(** [m] only appends, and what it appends and returns satisfies [P]. *)
Definition tracked {A} (P : outcome A -> list string -> list string -> Prop)
    (m : V A) : Prop :=
  ∀ d k, ∃ r es ws, appends m d k r es ws ∧ P r es ws.

(** A returned flag is true exactly when the flag before was true and no
    error was appended. *)
Definition flag (acc : bool) (r : outcome bool) (es ws : list string) : Prop :=
  ∀ b, r = Normal b -> (b = true ↔ acc = true ∧ es = []).

(** No error is appended. *)
Definition quiet {A} (r : outcome A) (es ws : list string) : Prop := es = [].


(** The warning of [validate_markdown] for a heading of [md_file]. *)
Definition skipped_heading (md_file title : string) : string :=
  "Skipped heading level in " +:+ md_file +:+ ": " +:+ title.

(** The error of [check_files_exist] for a resolved path. *)
Definition missing_file (file_path : string) : string :=
  "Missing file: " +:+ file_path.

(** Nothing is appended and the computation returns. *)
Definition silent {A} (r : outcome A) (es ws : list string) : Prop :=
  es = [] ∧ ws = [] ∧ ∃ a, r = Normal a.

(** Nothing is appended and the computation returns [a]. *)
Definition returns {A} (a : A) (r : outcome A) (es ws : list string) : Prop :=
  r = Normal a ∧ es = [] ∧ ws = [].

(** What the walk does on the YAML of a node when the existence test
    of every leaf below returns: it returns, with the flag cleared when
    a leaf lacks its file, and has appended the errors of those leaves
    in order. *)
Definition walked (w : World) (run : bool -> V bool) (paths : list string) : Prop :=
  ∀ acc d k e0 w0,
    Forall (fun p => answers w (path_join w d p)) paths ->
    run acc (Validator d k e0 w0)
    = (Normal (acc && bool_decide (missing_files w d paths = [])),
       Validator d k (e0 ++ map missing_file (missing_files w d paths)) w0).

End Docs.

(** ** Sample data for evaluation *)

Module Sample.
Import Tabular Docs.

(** *** Exact kernels

    The comparison and the reductions in exact arithmetic, as pandas
    dispatches them on integer and string columns: missing cells are
    skipped by the reductions and compare false; an order comparison
    between a string and an integer, and a mean, median or deviation of
    strings, raise [TypeError].  The deviation is kept as the root of
    its square. *)
Inductive number :=
| Exact (q : Q)
| Root (q : Q)
| Word (s : string)
| NaN.

Definition type_error (msg : string) : exn := Exn "TypeError" msg.

Definition compare_cell (op : cmp_op) (c : cell) (value : scalar)
    : outcome bool :=
  match c, value with
  | NA, _ => Normal false
  | Val (SInt a), SInt b =>
      Normal match op with
             | OpEq => (a =? b)%Z | OpGt => (a >? b)%Z | OpLt => (a <? b)%Z
             end
  | Val (SStr a), SStr b =>
      Normal match op with
             | OpEq => String.eqb a b
             | OpGt => String.ltb b a
             | OpLt => String.ltb a b
             end
  | _, _ =>
      match op with
      | OpEq => Normal false
      | _ => Raised (type_error "not supported between 'str' and 'int'")
      end
  end.

Fixpoint compare_cells (op : cmp_op) (cs : list cell) (value : scalar)
    : outcome (list bool) :=
  match cs with
  | [] => Normal []
  | c :: cs' =>
      match compare_cell op c value with
      | Raised e => Raised e
      | Normal b =>
          match compare_cells op cs' value with
          | Raised e => Raised e
          | Normal bs => Normal (b :: bs)
          end
      end
  end.

(** The integers of a column, missing cells skipped. *)
Fixpoint integers (cs : list cell) : outcome (list Z) :=
  match cs with
  | [] => Normal []
  | NA :: cs' => integers cs'
  | Val (SInt z) :: cs' =>
      match integers cs' with
      | Normal zs => Normal (z :: zs)
      | Raised e => Raised e
      end
  | Val (SStr s) :: _ =>
      Raised (type_error "Could not convert string to numeric")
  end.

Definition total (zs : list Z) : Z := foldr Z.add 0%Z zs.

Definition exact_mean (zs : list Z) : Q :=
  Qred (Qmake (total zs) 1 / Qmake (Z.of_nat (length zs)) 1).

Definition mean_of (cs : list cell) : outcome number :=
  match integers cs with
  | Raised e => Raised e
  | Normal [] => Normal NaN
  | Normal zs => Normal (Exact (exact_mean zs))
  end.

Definition median_of (cs : list cell) : outcome number :=
  match integers cs with
  | Raised e => Raised e
  | Normal [] => Normal NaN
  | Normal zs =>
      let sorted := merge_sort Z.le zs in
      let n := length zs in
      let hi := nth (n / 2)%nat sorted 0%Z in
      let lo := nth ((n - 1) / 2)%nat sorted 0%Z in
      Normal (Exact (Qred (Qmake (lo + hi) 2)))
  end.

Definition std_of (cs : list cell) : outcome number :=
  match integers cs with
  | Raised e => Raised e
  | Normal zs =>
      if (length zs <? 2)%nat then Normal NaN
      else
        let m := exact_mean zs in
        let squares :=
          foldr (fun z acc => Qplus ((Qmake z 1 - m) * (Qmake z 1 - m)) acc)
                (Qmake 0 1) zs in
        Normal (Root (Qred (squares / Qmake (Z.of_nat (length zs) - 1) 1)))
  end.

(** The least ([smallest = true]) or greatest value of a column. *)
Definition extreme_of (smallest : bool) (cs : list cell) : outcome number :=
  let pick_z a b := if smallest then Z.min a b else Z.max a b in
  let pick_s a b :=
    if smallest then (if String.ltb b a then b else a)
    else (if String.ltb a b then b else a) in
  foldr (fun c acc =>
    match acc, c with
    | Raised e, _ => Raised e
    | _, NA => acc
    | Normal NaN, Val (SInt z) => Normal (Exact (Qmake z 1))
    | Normal NaN, Val (SStr s) => Normal (Word s)
    | Normal (Exact q), Val (SInt z) =>
        Normal (Exact (Qmake (pick_z z (Qnum q)) 1))
    | Normal (Word t), Val (SStr s) => Normal (Word (pick_s s t))
    | Normal _, Val _ =>
        Raised (type_error "not supported between 'str' and 'int'")
    end) (Normal NaN) cs.

Definition exact : Kernels := {|
  stat := number;
  series_cmp := compare_cells;
  series_mean := mean_of;
  series_median := median_of;
  series_std := std_of;
  series_min := extreme_of true;
  series_max := extreme_of false
|}.

(** The five-row frame of the test suite. *)
Definition int (z : Z) : cell := Val (SInt z).
Definition str (s : string) : cell := Val (SStr s).

Definition sample_data : DataFrame :=
  Frame ["id"; "value"; "category"; "nullable"]
    [ (0, [int 1; int 10; str "A"; int 1]);
      (1, [int 2; int 20; str "B"; NA]);
      (2, [int 3; int 30; str "A"; int 3]);
      (3, [int 4; int 40; str "C"; NA]);
      (4, [int 5; int 50; str "B"; int 5]) ]%Z.

(** *** A small file system

    Paths are resolved from the working directory [/site]: a path is
    split at its slashes, empty components and [.] are dropped and
    [..] goes one directory up.  The existence test raises [OSError]
    on a path with a component of more than 255 bytes, as the system
    call does, and no path is a symbolic link. *)
Fixpoint components_from (component path : string) : list string :=
  match path with
  | EmptyString => [component]
  | String c rest =>
      if bool_decide (c = "/"%char) then component :: components_from "" rest
      else components_from (component +:+ String c "") rest
  end.

Definition components (path : string) : list string := components_from "" path.

(** The components of the absolute path, innermost first. *)
Fixpoint climb (up : list string) (cs : list string) : list string :=
  match cs with
  | [] => up
  | c :: cs' =>
      if bool_decide (c = "") || bool_decide (c = ".") then climb up cs'
      else if bool_decide (c = "..") then climb (List.tl up) cs'
      else climb (c :: up) cs'
  end.

Definition absolute (path : string) : list string :=
  rev (climb (if String.prefix "/" path then [] else ["site"])
             (components path)).

Definition path_str (cs : list string) : string :=
  "/" +:+ String.concat "/" cs.

(** [dir / name]: an absolute [name] replaces [dir]. *)
Definition joined (dir name : string) : string :=
  if String.prefix "/" name then name else dir +:+ "/" +:+ name.

(** What [open] raises on a path that is not there. *)
Definition no_such_file (path : string) : exn :=
  Exn "FileNotFoundError"
      ("[Errno 2] No such file or directory: '" +:+ path +:+ "'").

(** The lines of a text, joined. *)
Definition unlines (lines : list string) : string :=
  String.concat (String "010" "") lines.

(** [(md_file.parent / link).resolve()]. *)
Definition resolved (md_file link : string) : string :=
  path_str (rev (climb (if String.prefix "/" link then []
                        else List.tl (rev (absolute md_file)))
                       (components link))).

Definition name_too_long (path : string) : bool :=
  existsb (fun c => (255 <? String.length c)%nat) (components path).

(** [path.exists()] on a file system with the entries [disk]. *)
Definition on_disk (disk : list string) (path : string) : outcome bool :=
  if name_too_long path then
    Raised (Exn "OSError"
              ("[Errno 36] File name too long: '" +:+ path +:+ "'"))
  else Normal (bool_decide (path_str (absolute path) ∈ disk)).

(** *** A small documentation tree

    A manifest with three leaves, one of them ([guide/usage.md]) without
    its file, and three markdown files, the first of which opens with a
    second-level heading. *)
Definition manifest : list nav_node :=
  [ Leaf "Home" "index.md";
    Branch "Guide" [ Leaf "Install" "guide/install.md";
                     Leaf "Usage" "guide/usage.md" ] ].

Definition index_md : string := "## Welcome".
Definition install_md : string := "# Install".
Definition api_md : string := "# Class Documentation / Methods / Examples".

Definition disk : list string :=
  [ "/site"; "/site/mkdocs.yml"; "/site/docs"; "/site/docs/index.md";
    "/site/docs/guide"; "/site/docs/guide/install.md";
    "/site/docs/api"; "/site/docs/api/data_processor.md" ].

Definition tree : World := {|
  open_yaml path :=
    if bool_decide (path = "mkdocs.yml") then
      Normal (YDict [ (KStr "site_name", YStr "Demo");
                      (KStr "nav", YList (map nav_yaml manifest)) ])
    else Raised (no_such_file path);
  path_exists := on_disk disk;
  path_join := joined;
  resolve_beside md_file link := Normal (resolved md_file link);
  rglob_md dir :=
    if bool_decide (dir = "docs") then
      ["docs/index.md"; "docs/guide/install.md"; "docs/api/data_processor.md"]
    else [];
  read_text path :=
    if bool_decide (path = "docs/index.md") then Normal index_md
    else if bool_decide (path = "docs/guide/install.md") then Normal install_md
    else if bool_decide (path = "docs/api/data_processor.md") then Normal api_md
    else Raised (no_such_file path);
  find_links _ := [];
  find_images _ := [];
  find_code_blocks _ := [];
  find_headings content :=
    if bool_decide (content = index_md) then [("##", "Welcome")]
    else if bool_decide (content = install_md) then [("#", "Install")]
    else if bool_decide (content = api_md)
    then [("#", "Class Documentation / Methods / Examples")]
    else [];
  py_compile _ := Normal tt;
  render _ := Normal tt
|}.

(** The same tree with every file of the manifest in place. *)
Definition complete_tree : World := {|
  open_yaml := open_yaml tree;
  path_exists := on_disk ("/site/docs/guide/usage.md" :: disk);
  path_join := path_join tree;
  resolve_beside := resolve_beside tree;
  rglob_md := rglob_md tree;
  read_text := read_text tree;
  find_links := find_links tree;
  find_images := find_images tree;
  find_code_blocks := find_code_blocks tree;
  find_headings := find_headings tree;
  py_compile := py_compile tree;
  render := render tree
|}.

(** The complete tree with a first page whose only heading is at the
    second level and names a directory between square brackets. *)
Definition bracket_md : string := "## Install to [/usr/local]".

Definition bracket_tree : World := {|
  open_yaml := open_yaml complete_tree;
  path_exists := path_exists complete_tree;
  path_join := path_join complete_tree;
  resolve_beside := resolve_beside complete_tree;
  rglob_md := rglob_md complete_tree;
  read_text path :=
    if bool_decide (path = "docs/index.md") then Normal bracket_md
    else read_text complete_tree path;
  find_links := find_links complete_tree;
  find_images := find_images complete_tree;
  find_code_blocks := find_code_blocks complete_tree;
  find_headings content :=
    if bool_decide (content = bracket_md)
    then [("##", "Install to [/usr/local]")]
    else find_headings complete_tree content;
  py_compile := py_compile complete_tree;
  render := render complete_tree
|}.

(** *** Consoles

    The reading of console markup, as far as it can fail.  A tag is an
    opening bracket that no odd run of backslashes precedes, followed by
    a lower-case letter or one of [#], [/] and [@], and closed by the
    next closing bracket, with no opening bracket in between.  A tag
    that starts with a slash closes the open tag of its name, or the
    last one opened when it has no name, and is an error when there is
    none. *)
Definition starts_tag (c : ascii) : bool :=
  let n := N_of_ascii c in
  ((97 <=? n) && (n <=? 122))%N
  || bool_decide (c = "#"%char) || bool_decide (c = "/"%char)
  || bool_decide (c = "@"%char).

(** The text of the tag up to its closing bracket. *)
Fixpoint tag_body (s : string) : option string :=
  match s with
  | EmptyString => None
  | String c rest =>
      if bool_decide (c = "]"%char) then Some EmptyString
      else if bool_decide (c = "["%char) then None
      else String c <$> tag_body rest
  end.

Fixpoint before_equals (body : string) : string :=
  match body with
  | EmptyString => EmptyString
  | String c rest =>
      if bool_decide (c = "="%char) then EmptyString
      else String c (before_equals rest)
  end.

Fixpoint close_tag (name : string) (opened : list string)
    : option (list string) :=
  match opened with
  | [] => None
  | t :: opened' =>
      if bool_decide (t = name) then Some opened'
      else cons t <$> close_tag name opened'
  end.

(** What a tag does to the tags open so far, innermost first. *)
Definition read_tag (body : string) (position : nat) (opened : list string)
    : outcome (list string) :=
  match before_equals body with
  | String c closed =>
      if bool_decide (c = "/"%char) then
        if bool_decide (closed = "") then
          match opened with
          | [] =>
              Raised (Exn "MarkupError"
                        ("closing tag '[/]' at position " +:+ pretty position
                         +:+ " has nothing to close"))
          | _ :: opened' => Normal opened'
          end
        else
          match close_tag closed opened with
          | None =>
              Raised (Exn "MarkupError"
                        ("closing tag '[" +:+ body +:+ "]' at position "
                         +:+ pretty position
                         +:+ " doesn't match any open tag"))
          | Some opened' => Normal opened'
          end
      else Normal (before_equals body :: opened)
  | EmptyString => Normal opened
  end.

(** The scan of [s], which starts at [position]: [skip] characters of
    a tag already read are passed over, [opened] are the tags open so
    far and [escaped] tells an odd run of backslashes just before. *)
Fixpoint read_markup (s : string) (position skip : nat)
    (opened : list string) (escaped : bool) : outcome unit :=
  match s with
  | EmptyString => Normal tt
  | String c rest =>
      match skip with
      | S skip' => read_markup rest (S position) skip' opened false
      | O =>
          if bool_decide (c = "092"%char) then
            read_markup rest (S position) 0 opened (negb escaped)
          else if bool_decide (c = "["%char) then
            match rest with
            | String c' _ =>
                if starts_tag c' then
                  match tag_body rest with
                  | Some body =>
                      let skip := S (String.length body) in
                      if escaped then
                        read_markup rest (S position) skip opened false
                      else
                        match read_tag body position opened with
                        | Normal opened' =>
                            read_markup rest (S position) skip opened' false
                        | Raised e => Raised e
                        end
                  | None => read_markup rest (S position) 0 opened false
                  end
                else read_markup rest (S position) 0 opened false
            | EmptyString => Normal tt
            end
          else read_markup rest (S position) 0 opened false
      end
  end.

Definition markup (s : string) : outcome unit :=
  read_markup s 0 0 [] false.

Fixpoint markup_all (cells : list string) : outcome unit :=
  match cells with
  | [] => Normal tt
  | s :: rest =>
      match markup s with
      | Normal _ => markup_all rest
      | Raised e => Raised e
      end
  end.

(** A console that reads markup. *)
Definition rich : Console := {|
  console_print p :=
    match p with
    | Text s _ => markup s
    | Table title _ column cells => markup_all (title :: column :: cells)
    end
|}.

(** A console that shows every string as it is. *)
Definition plain : Console := {| console_print _ := Normal tt |}.

End Sample.

(** ** More of the tabular processor *)

Module TabularMore.
Import Tabular.

(** Every row has a cell for every column. *)
Definition well_formed (df : DataFrame) : Prop :=
  Forall (fun r => length (snd r) = length (columns df)) (rows df).

(** [df.isnull().sum()]: for each column, in order, the number of its
    missing cells; [to_dict()] keys them by label. *)
Definition null_count (df : DataFrame) (i : nat) : nat :=
  length (List.filter is_na (map (fun r => nth i (snd r) NA) (rows df))).

Definition isnull_sum (df : DataFrame) : list (string * nat) :=
  imap (fun i label => (label, null_count df i)) (columns df).

(** The dtype pandas keeps for each column of a frame, and the test
    [np.number] makes of it. *)
Record Dtypes := {
  dtype : Type;
  column_dtype : DataFrame -> string -> dtype;
  is_number : dtype -> bool
}.

(** The dictionary [generate_summary] returns, one field per key. *)
Record Summary := {
  shape : nat * nat;
  summary_columns : list string;
  missing_values : list (string * nat);
  numeric_columns : list string
}.

Section Introspection.
Context (D : Dtypes).

(** [DataProcessor.get_column_types]. *)
Definition get_column_types : M store (list (string * dtype D)) :=
  d <- gets self_data ;;
  df <- deref d ;;
  ret (map (fun label => (label, column_dtype D df label)) (columns df)).

(** [DataProcessor.generate_summary]. *)
Definition generate_summary : M store Summary :=
  d <- gets self_data ;; df_shape <- deref d ;;
  d <- gets self_data ;; df_columns <- deref d ;;
  d <- gets self_data ;; df_missing <- deref d ;;
  d <- gets self_data ;; df_numeric <- deref d ;;
  ret {| shape := (length (rows df_shape), length (columns df_shape));
         summary_columns := columns df_columns;
         missing_values := isnull_sum df_missing;
         numeric_columns :=
           List.filter
             (fun label => is_number D (column_dtype D df_numeric label))
             (columns df_numeric) |}.

End Introspection.

(** [DataProcessor()]: without data the processor holds an empty
    frame. *)
Definition empty_processor : store := processor (Frame [] []).

(** *** Filtering, one table after another

    What one condition makes of a table, and what a list of conditions
    makes of it, each applied to the table the one before left. *)
Definition cmp_of (operator : string) : option cmp_op :=
  if bool_decide (operator = "equals") then Some OpEq
  else if bool_decide (operator = "greater_than") then Some OpGt
  else if bool_decide (operator = "less_than") then Some OpLt
  else None.

Definition apply_condition (K : Kernels) (T : DataFrame) (c : condition)
    : outcome DataFrame :=
  let '(column, operator, value) := c in
  match cmp_of operator with
  | None => Raised (Exn "ValueError" ("Unsupported operator: " +:+ operator))
  | Some op =>
      match column_values T column with
      | Raised e => Raised e
      | Normal col =>
          match series_cmp K op col value with
          | Raised e => Raised e
          | Normal mask => Normal (select_rows T mask)
          end
      end
  end.

Fixpoint filter_table (K : Kernels) (T : DataFrame) (conds : list condition)
    : outcome DataFrame :=
  match conds with
  | [] => Normal T
  | c :: conds' =>
      match apply_condition K T c with
      | Normal T' => filter_table K T' conds'
      | Raised e => Raised e
      end
  end.

(** The table a call of [filter_data] returned, if it returned. *)
Definition returned (r : outcome loc * store) : outcome DataFrame :=
  match fst r with
  | Normal l =>
      match heap (snd r) !! l with
      | Some T => Normal T
      | None => Raised (Exn "SystemError" "dangling reference")
      end
  | Raised e => Raised e
  end.

(** A frame with a dtype per column, for evaluation: the column is
    numeric when a cell of it is an integer and none is a string. *)
Definition by_cells : Dtypes := {|
  dtype := bool;
  column_dtype df label :=
    match column_values df label with
    | Normal cells =>
        forallb (fun c => match c with Val (SStr _) => false | _ => true end)
                cells
        && existsb (fun c => match c with Val (SInt _) => true | _ => false end)
                   cells
    | Raised _ => false
    end;
  is_number b := b
|}.

(** The sample frame without its rows with a missing cell. *)
Definition tidy_data : DataFrame :=
  Frame ["id"; "value"; "category"; "nullable"]
    [ (0, [Val (SInt 1); Val (SInt 10); Val (SStr "A"); Val (SInt 1)]);
      (2, [Val (SInt 3); Val (SInt 30); Val (SStr "A"); Val (SInt 3)]);
      (4, [Val (SInt 5); Val (SInt 50); Val (SStr "B"); Val (SInt 5)]) ]%Z.

End TabularMore.

(** ** More of the documentation validator *)

Module DocsMore.
Import Docs.

(** *** The external-link check

    [validate_external_links] is defined by the class though
    [validate_all] does not run it.  What it needs beyond the files:
    the pattern search for links with an absolute URL, [requests.head]
    with the status code of the response it returns, and the test for
    an instance of [requests.RequestException]. *)
Record Network := {
  find_external_links : string -> list (string * string);
  requests_head : string -> outcome Z;
  is_request_exception : exn -> bool
}.

Section External.
Context (w : World) (net : Network).

(** The [try] statement for one URL not seen before. *)
Definition check_url (md_file : string) (success : bool) (url : string)
    : V bool :=
  try_except_only (is_request_exception net)
    (status_code <- lift (requests_head net url) ;;
     if (status_code >=? 400)%Z then
       errors_append
         ("Broken external link in " +:+ md_file +:+ ": " +:+ url) ;;;
       ret false
     else ret success)
    (fun _ =>
       errors_append
         ("Failed to access external link in " +:+ md_file +:+ ": " +:+ url) ;;;
       ret false).

(** One link of one file: the accumulator is [success] with
    [checked_urls]. *)
Definition external_link (md_file : string) (acc : bool * gset string)
    (text_url : string * string) : V (bool * gset string) :=
  let url := snd text_url in
  if negb (bool_decide (url ∈ snd acc)) then
    success <- check_url md_file (fst acc) url ;;
    ret (success, {[url]} ∪ snd acc)
  else ret acc.

(** The body of the loop over the files. *)
Definition external_file (acc : bool * gset string) (md_file : string)
    : V (bool * gset string) :=
  content <- lift (read_text w md_file) ;;
  for_fold (external_link md_file) acc (find_external_links net content).

(** [DocsValidator.validate_external_links]. *)
Definition validate_external_links : V bool :=
  d <- gets docs_dir ;;
  acc <- for_fold external_file (true, ∅) (rglob_md w d) ;;
  ret (fst acc).

End External.

(** *** What a scan reports

    [scanned run es ws]: from any flag and any report, [run] returns,
    with the flag cleared when [es] is not empty, and has appended [es]
    to the errors and [ws] to the warnings. *)
Definition scanned (run : bool -> V bool) (es ws : list string) : Prop :=
  ∀ acc d k e0 w0,
    run acc (Validator d k e0 w0)
    = (Normal (acc && bool_decide (es = [])),
       Validator d k (e0 ++ es) (w0 ++ ws)).

(** The text of a file, empty when it cannot be read. *)
Definition text_of (w : World) (md_file : string) : string :=
  match read_text w md_file with
  | Normal content => content
  | Raised _ => ""
  end.

Definition readable (w : World) (md_file : string) : Prop :=
  ∃ content, read_text w md_file = Normal content.









(** The sections [validate_api_docs] does not find in a text. *)
Definition missing_sections (content : string) : list string :=
  List.filter (fun section => negb (contains (lower content) (lower section)))
              required_sections.



(** The rendering error of a file, if rendering it raises. *)
Definition render_errors (w : World) (md_file : string) : list string :=
  match render w (text_of w md_file) with
  | Raised e => ["Invalid markdown in " +:+ md_file +:+ ": " +:+ exn_str e]
  | Normal _ => []
  end.

(** The headings that are more than one level below the heading before
    them, [level] being the level before the first. *)
Fixpoint skipped (md_file : string) (level : Z)
    (headings : list (string * string)) : list string :=
  match headings with
  | [] => []
  | (hashes, title) :: rest =>
      let next := Z.of_nat (String.length hashes) in
      (if (next - level >? 1)%Z then [skipped_heading md_file title] else [])
      ++ skipped md_file next rest
  end.

Definition heading_warnings (w : World) (md_file : string) : list string :=
  skipped md_file 0 (find_headings w (text_of w md_file)).

(** No heading is more than one level below the heading before it. *)
Fixpoint stepwise (level : Z) (headings : list (string * string)) : Prop :=
  match headings with
  | [] => True
  | (hashes, _) :: rest =>
      (Z.of_nat (String.length hashes) <= level + 1)%Z
      ∧ stepwise (Z.of_nat (String.length hashes)) rest
  end.

(** Each error of [es] is about the URL at its place in [urls]: that
    the link is broken, or that it could not be accessed, in some
    file. *)
Definition reports (es urls : list string) : Prop :=
  Forall2 (fun msg url =>
             ∃ md_file,
               msg = "Broken external link in " +:+ md_file +:+ ": " +:+ url
               ∨ msg = "Failed to access external link in " +:+ md_file
                       +:+ ": " +:+ url)
          es urls.

(** What a part of the external-link scan does, from the accumulator
    [acc]: it appends errors about URLs that are pairwise distinct and
    were not checked before, appends no warning, and when it returns,
    the URLs checked before and the reported ones are checked, and the
    flag is true exactly when it was and nothing was appended. *)
Definition linked (acc : bool * gset string) (m : V (bool * gset string))
    : Prop :=
  ∀ v, ∃ es urls,
    final (m v)
    = Validator (docs_dir v) (mkdocs_file v) (errors v ++ es) (warnings v)
    ∧ reports es urls
    ∧ NoDup urls
    ∧ (∀ u, u ∈ urls -> u ∉ snd acc)
    ∧ (∀ s C, result (m v) = Normal (s, C) ->
         snd acc ⊆ C ∧ (∀ u, u ∈ urls -> u ∈ C)
         ∧ (s = true ↔ fst acc = true ∧ es = [])).

(** The computation always returns. *)
Definition total {A} (m : V A) : Prop :=
  ∀ v, ∃ a v', m v = (Normal a, v').

(** The computation does not return true. *)
Definition never_true (m : V bool) : Prop :=
  ∀ v, result (m v) ≠ Normal true.

(** The body of the loop of [validate_nav_item] over the entries of a
    mapping. *)
Definition nav_entry (success : bool) (entry : ykey * yaml) : V bool :=
  success <- (if negb (is_str_key (fst entry)) then
                errors_append
                  ("Invalid navigation title: " +:+ key_str (fst entry)) ;;;
                ret false
              else ret success) ;;
  match snd entry with
  | YList children =>
      for_fold (fun success child =>
        r <- validate_nav_item child ;;
        ret (success && r)) success children
  | _ => ret success
  end.

Definition is_mapping (item : yaml) : bool :=
  match item with YDict _ => true | _ => false end.

(** A value [check_files_exist] can neither join to a path nor walk. *)
Definition is_path_or_list (v : yaml) : bool :=
  match v with YStr _ | YList _ => true | _ => false end.

(** *** Trees and networks for evaluation *)

(** A tree with more in its pages.  The first page has links to an
    anchor, to a page in place and to one that is not, links and an
    image with absolute URLs, an image without its file, and headings
    that go down two levels at once and back up; the second has four
    fenced blocks, two of them tagged python; the API page has its
    titles in another case.  The searches return what the patterns of
    the script find in these texts. *)
Definition links_md : string :=
  Sample.unlines
    [ "# Welcome";
      "";
      "See [site](https://a.example/dead), [top](#welcome),";
      "[install](guide/install.md#steps), [gone](gone.md#x)";
      "and [b](https://b.example/), [again](https://a.example/dead).";
      "";
      "![logo](http://example.org/logo.png) ![](img/chart.png#big)";
      "";
      "### Deep";
      "";
      "## Back";
      "";
      "### Down" ].

Definition blocks_md : string :=
  Sample.unlines
    [ "# Install";
      "";
      "[c](https://c.example/down) [a](https://a.example/dead)";
      "";
      "```python";
      "print('ok')";
      "```";
      "";
      "```bash";
      "pip install (";
      "```";
      "";
      "```";
      "plain";
      "```";
      "";
      "```python";
      "def f(:";
      "```" ].

Definition shouting_md : string :=
  "# CLASS DOCUMENTATION, then methods and EXAMPLES".

Definition shouting_api : World := {|
  open_yaml := open_yaml Sample.complete_tree;
  path_exists := path_exists Sample.complete_tree;
  path_join := path_join Sample.complete_tree;
  resolve_beside := resolve_beside Sample.complete_tree;
  rglob_md := rglob_md Sample.complete_tree;
  read_text path :=
    if bool_decide (path = "docs/index.md") then Normal links_md
    else if bool_decide (path = "docs/guide/install.md") then Normal blocks_md
    else if bool_decide (path = "docs/api/data_processor.md")
    then Normal shouting_md
    else Raised (Sample.no_such_file path);
  find_links content :=
    if bool_decide (content = links_md)
    then [("site", "https://a.example/dead"); ("top", "#welcome");
          ("install", "guide/install.md#steps"); ("gone", "gone.md#x");
          ("b", "https://b.example/"); ("again", "https://a.example/dead");
          ("logo", "http://example.org/logo.png")]
    else if bool_decide (content = blocks_md)
    then [("c", "https://c.example/down"); ("a", "https://a.example/dead")]
    else [];
  find_images content :=
    if bool_decide (content = links_md)
    then [("logo", "http://example.org/logo.png"); ("", "img/chart.png#big")]
    else [];
  find_code_blocks content :=
    if bool_decide (content = blocks_md)
    then [(Some "python", "print('ok')"); (Some "bash", "pip install (");
          (None, "plain"); (Some "python", "def f(:")]
    else [];
  find_headings content :=
    if bool_decide (content = links_md)
    then [("#", "Welcome"); ("###", "Deep"); ("##", "Back"); ("###", "Down")]
    else if bool_decide (content = blocks_md) then [("#", "Install")]
    else if bool_decide (content = shouting_md)
    then [("#", "CLASS DOCUMENTATION, then methods and EXAMPLES")]
    else [];
  py_compile code :=
    if bool_decide (code = "def f(:")
    then Raised (Exn "SyntaxError" "invalid syntax (<string>, line 1)")
    else Normal tt;
  render content :=
    if bool_decide (content = blocks_md)
    then Raised (Exn "ValueError" "bad markup")
    else Normal tt
|}.

(** A manifest with a numeric title in its second item and another in
    its third. *)
Definition numbered_nav : list yaml :=
  [ YDict [(KStr "Home", YStr "index.md")];
    YDict [(KInt 2024, YStr "news.md")];
    YDict [(KBool true, YStr "flags.md")] ].

Definition manifest_of (nav : yaml) (base : World) : World := {|
  open_yaml path := Normal (YDict [(KStr "nav", nav)]);
  path_exists := path_exists base;
  path_join := path_join base;
  resolve_beside := resolve_beside base;
  rglob_md := rglob_md base;
  read_text := read_text base;
  find_links := find_links base;
  find_images := find_images base;
  find_code_blocks := find_code_blocks base;
  find_headings := find_headings base;
  py_compile := py_compile base;
  render := render base
|}.

(** A manifest whose first leaf has a name of 259 bytes, which no file
    system entry can have, and whose second leaf lacks its file. *)
Definition over_long_name : string :=
  String.concat "" (replicate 256 "a") +:+ ".md".

Definition over_long_tree : World :=
  manifest_of
    (YList (map nav_yaml [ Leaf "Long" over_long_name;
                           Leaf "Usage" "guide/usage.md" ]))
    Sample.tree.

(** A network: one URL answers 404, one cannot be reached, the others
    answer 200; the first file links twice to the dead URL. *)
Definition small_net : Network := {|
  find_external_links content :=
    if bool_decide (content = links_md)
    then [("site", "https://a.example/dead"); ("b", "https://b.example/");
          ("again", "https://a.example/dead");
          ("logo", "http://example.org/logo.png")]
    else if bool_decide (content = blocks_md)
    then [("c", "https://c.example/down"); ("a", "https://a.example/dead")]
    else [];
  requests_head url :=
    if bool_decide (url = "https://a.example/dead") then Normal 404
    else if bool_decide (url = "https://c.example/down")
    then Raised (Exn "ConnectionError" "unreachable")
    else Normal 200;
  is_request_exception e :=
    bool_decide (exn_class e ∈ ["RequestException"; "ConnectionError";
                                "Timeout"; "HTTPError"])
|}.

End DocsMore.

(** * Properties *)

(** ** Running computations *)

Section Effects.
Context {S A B : Type}.

Lemma bind_normal (m : M S A) (k : A -> M S B) s a s' :
  m s = (Normal a, s') -> bind m k s = k a s'.
Proof. unfold bind. by intros ->. Qed.

Lemma bind_raised (m : M S A) (k : A -> M S B) s e s' :
  m s = (Raised e, s') -> bind m k s = (Raised e, s').
Proof. unfold bind. by intros ->. Qed.

Lemma bind_gets (f : S -> A) (k : A -> M S B) s :
  bind (gets f) k s = k (f s) s.
Proof. reflexivity. Qed.

Lemma bind_lift (o : outcome A) (k : A -> M S B) s :
  bind (lift o) k s
  = match o with Normal a => k a s | Raised e => (Raised e, s) end.
Proof. unfold bind, lift. by destruct o. Qed.

Lemma for_fold_cons (body : B -> A -> M S B) acc x xs :
  for_fold body acc (x :: xs)
  = bind (body acc x) (fun acc' => for_fold body acc' xs).
Proof. reflexivity. Qed.

End Effects.

(** ** The tabular processor *)

Module TabularFacts.
Import Tabular.

Lemma select_sublist {A} (xs : list A) mask : select xs mask `sublist_of` xs.
Proof.
  revert mask. induction xs as [|x xs IH]; intros [|[] mask]; simpl;
    try constructor; auto using sublist_nil_l.
Qed.

Lemma filter_sublist {A} (f : A -> bool) xs : List.filter f xs `sublist_of` xs.
Proof.
  induction xs as [|x xs IH]; simpl; [constructor|].
  destruct (f x); by constructor.
Qed.

Lemma unseen_sublist seen rs : unseen seen rs `sublist_of` rs.
Proof.
  revert seen. induction rs as [|r rs IH]; intros seen; simpl; [constructor|].
  case_bool_decide; constructor; apply IH.
Qed.

(** A second pass over what [unseen] kept drops nothing. *)
Lemma unseen_idem seen rs : unseen seen (unseen seen rs) = unseen seen rs.
Proof.
  revert seen. induction rs as [|r rs IH]; intros seen; simpl; [done|].
  case_bool_decide as Hr; [apply IH|].
  simpl. rewrite bool_decide_eq_false_2 by done. by rewrite IH.
Qed.

Lemma filter_all {A} (f : A -> bool) xs :
  Forall (fun x => f x = true) xs -> List.filter f xs = xs.
Proof.
  induction 1 as [|x xs Hx _ IH]; simpl; [done|]. by rewrite Hx, IH.
Qed.

Lemma filter_Forall {A} (f : A -> bool) xs :
  Forall (fun x => f x = true) (List.filter f xs).
Proof.
  induction xs as [|x xs IH]; simpl; [constructor|].
  destruct (f x) eqn:Hx; [by constructor|done].
Qed.

Lemma sublist_keeps_Forall {A} (P : A -> Prop) l k :
  l `sublist_of` k -> Forall P k -> Forall P l.
Proof.
  induction 1; intros HF; [done| |]; inversion HF; subst; auto.
Qed.

Lemma dropna_unseen_dropna rs :
  List.filter complete (unseen [] (List.filter complete rs))
  = unseen [] (List.filter complete rs).
Proof.
  apply filter_all.
  eapply sublist_keeps_Forall; [apply unseen_sublist | apply filter_Forall].
Qed.

(** The pure content of [clean_data], applied twice. *)
Lemma clean_twice T :
  drop_duplicates (dropna (drop_duplicates (dropna T)))
  = drop_duplicates (dropna T).
Proof.
  unfold drop_duplicates, dropna. simpl. f_equal.
  rewrite dropna_unseen_dropna. apply unseen_idem.
Qed.

(** *** The store only grows *)

Lemma extends_refl σ : extends σ σ.
Proof. by split. Qed.

Lemma extends_trans σ1 σ2 σ3 : extends σ1 σ2 -> extends σ2 σ3 -> extends σ1 σ3.
Proof.
  intros [H1 H2] [H3 H4]. split; [congruence|]. by etrans.
Qed.

Lemma fresh_unallocated (h : gmap loc DataFrame) : h !! fresh (dom h) = None.
Proof. apply not_elem_of_dom, is_fresh. Qed.

Lemma new_extends df σ :
  extends σ (Store (<[fresh (dom (heap σ)) := df]> (heap σ)) (self_data σ)).
Proof.
  split; [done|]. simpl. apply insert_subseteq, fresh_unallocated.
Qed.

Lemma extends_lookup σ σ' l df :
  extends σ σ' -> heap σ !! l = Some df -> heap σ' !! l = Some df.
Proof. intros [_ Hsub] Hl. eapply lookup_weaken; eauto. Qed.

Lemma extends_unallocated σ σ' l :
  extends σ σ' -> heap σ' !! l = None -> heap σ !! l = None.
Proof.
  intros [_ Hsub] Hl. destruct (heap σ !! l) eqn:E; [|done].
  eapply lookup_weaken in E; eauto. congruence.
Qed.

(** [clean_data] on a live processor: it returns, and [self.data] then
    refers to a new frame, the old one cleaned. *)
Lemma clean_data_run σ T :
  data σ = Some T ->
  ∃ σ', clean_data σ = (Normal tt, σ')
        ∧ data σ' = Some (drop_duplicates (dropna T)).
Proof.
  unfold data. intros H.
  unfold clean_data, df_dropna, df_drop_duplicates, deref, new,
    set_self_data, modify, gets, bind, ret. simpl.
  rewrite H. simpl. rewrite lookup_insert_eq. simpl.
  eexists; split; [done|]. simpl. apply lookup_insert_eq.
Qed.

Section Filter.
Context (K : Kernels).

Lemma masked_run op fd column value σ F :
  heap σ !! fd = Some F ->
  (∃ e, masked K op fd column value σ = (Raised e, σ))
  ∨ (∃ mask, masked K op fd column value σ
             = (Normal (fresh (dom (heap σ))),
                Store (<[fresh (dom (heap σ)) := select_rows F mask]> (heap σ))
                      (self_data σ))).
Proof.
  intros H. unfold masked, df_getitem, df_getitem_mask, deref, new, lift, bind.
  rewrite H. destruct (column_values F column) as [col|e]; [|eauto].
  destruct (series_cmp K op col value) as [mask|e]; [|eauto].
  rewrite H. eauto.
Qed.

Lemma filter_step_run fd c σ F :
  heap σ !! fd = Some F ->
  (∃ e, filter_step K fd c σ = (Raised e, σ))
  ∨ (∃ mask, filter_step K fd c σ
             = (Normal (fresh (dom (heap σ))),
                Store (<[fresh (dom (heap σ)) := select_rows F mask]> (heap σ))
                      (self_data σ))).
Proof.
  intros H. destruct c as [[column operator] value]. unfold filter_step.
  repeat case_bool_decide; try by apply (masked_run _ _ _ _ _ _ H).
  left. by eexists.
Qed.

(** The loop of [filter_data], from a live [filtered_data]. *)
Lemma filter_loop conds : ∀ fd σ F,
  heap σ !! fd = Some F ->
  extends σ (final (for_fold (filter_step K) fd conds σ))
  ∧ ∀ l, result (for_fold (filter_step K) fd conds σ) = Normal l ->
      (l = fd ∨ heap σ !! l = None)
      ∧ ∃ F', heap (final (for_fold (filter_step K) fd conds σ)) !! l = Some F'
              ∧ columns F' = columns F
              ∧ rows F' `sublist_of` rows F.
Proof.
  induction conds as [|c conds IH]; intros fd σ F H.
  - simpl. split; [apply extends_refl|].
    intros l [= <-]. split; [by left|]. by exists F.
  - rewrite for_fold_cons.
    destruct (filter_step_run fd c σ F H) as [[e He]|[mask Hm]].
    + rewrite (bind_raised _ _ _ _ _ He). simpl.
      split; [apply extends_refl|]. intros l [=].
    + rewrite (bind_normal _ _ _ _ _ Hm).
      set (l1 := fresh (dom (heap σ))) in *.
      set (σ1 := Store _ _) in *.
      assert (Hext : extends σ σ1) by apply new_extends.
      assert (H1 : heap σ1 !! l1 = Some (select_rows F mask))
        by apply lookup_insert_eq.
      destruct (IH l1 σ1 _ H1) as [Hext' Hres].
      split; [by eapply extends_trans|].
      intros l Hl. destruct (Hres l Hl) as [Hor (F' & HF' & Hc & Hr)].
      split.
      * right. destruct Hor as [->|Hn];
          [apply fresh_unallocated | by eapply extends_unallocated].
      * exists F'. split; [done|]. split; [done|].
        etrans; [exact Hr|]. apply select_sublist.
Qed.

(** [filter_data] on a live processor. *)
Lemma filter_data_run conds σ T :
  data σ = Some T ->
  extends σ (final (filter_data K conds σ))
  ∧ ∀ l, result (filter_data K conds σ) = Normal l ->
      heap σ !! l = None
      ∧ ∃ T', heap (final (filter_data K conds σ)) !! l = Some T'
              ∧ columns T' = columns T
              ∧ rows T' `sublist_of` rows T.
Proof.
  unfold data. intros H.
  assert (Hrun : filter_data K conds σ
          = for_fold (filter_step K) (fresh (dom (heap σ))) conds
              (Store (<[fresh (dom (heap σ)) := T]> (heap σ)) (self_data σ))).
  { unfold filter_data, df_copy, deref, new, gets, bind. by rewrite H. }
  rewrite Hrun.
  set (l0 := fresh (dom (heap σ))). set (σ0 := Store _ _).
  assert (H0 : heap σ0 !! l0 = Some T) by apply lookup_insert_eq.
  destruct (filter_loop conds l0 σ0 T H0) as [Hext Hres].
  split; [eapply extends_trans; [apply new_extends|exact Hext]|].
  intros l Hl. destruct (Hres l Hl) as [Hor HT]. split; [|done].
  destruct Hor as [->|Hn]; [apply fresh_unallocated|].
  eapply extends_unallocated; [apply new_extends|exact Hn].
Qed.

End Filter.
End TabularFacts.

Module TabularSpec.
Import Tabular TabularFacts Sample.

(** The cases of the test suite, on the exact kernels. *)
Example statistics_of_value :
  result (calculate_statistics exact "value" (processor sample_data))
  = Normal [("mean", Exact 30); ("median", Exact 30); ("std", Root 250);
            ("min", Exact 10); ("max", Exact 50)].
Proof. reflexivity. Qed.

Example filter_two_conditions :
  let r := filter_data exact [("value", "greater_than", SInt 20);
                              ("category", "equals", SStr "A")]
             (processor sample_data) in
  result r = Normal 4%positive
  ∧ heap (final r) !! 4%positive
    = Some (Frame ["id"; "value"; "category"; "nullable"]
              [(2, [int 3; int 30; str "A"; int 3])]).
Proof. split; reflexivity. Qed.

Example filter_invalid_operator :
  filter_data exact [("value", "invalid_operator", SInt 20)]
    (processor sample_data)
  = (Raised (Exn "ValueError" "Unsupported operator: invalid_operator"),
     Store (<[2%positive := sample_data]> {[1%positive := sample_data]})
           1%positive).
Proof. reflexivity. Qed.

Example clean_sample :
  data (final (clean_data (processor sample_data)))
  = Some (Frame ["id"; "value"; "category"; "nullable"]
            [ (0, [int 1; int 10; str "A"; int 1]);
              (2, [int 3; int 30; str "A"; int 3]);
              (4, [int 5; int 50; str "B"; int 5]) ]).
Proof. reflexivity. Qed.

(** C4. Filtering with the empty condition list returns a table equal to
    the stored one: on a processor whose [data] is [T], [filter_data []]
    returns normally, and the frame it returns is [T]. *)
Theorem filter_data_no_conditions (K : Kernels) (σ : store) (T : DataFrame) :
  data σ = Some T ->
  ∃ l σ', filter_data K [] σ = (Normal l, σ') ∧ heap σ' !! l = Some T.
Proof.
  unfold data. intros H.
  unfold filter_data, df_copy, deref, new, gets, bind. rewrite H. simpl.
  eexists _, _. split; [reflexivity|]. apply lookup_insert_eq.
Qed.

Lemma filter_data_no_conditions_witness :
  data (processor sample_data) = Some sample_data
  ∧ ∃ l σ', filter_data exact [] (processor sample_data) = (Normal l, σ')
            ∧ heap σ' !! l = Some sample_data.
Proof.
  split; [reflexivity|].
  apply (filter_data_no_conditions exact (processor sample_data) sample_data).
  reflexivity.
Defined.

(** C5. Cleaning is idempotent: [clean_data] replaces the table by the
    table without the rows that have a missing value and then without
    the duplicate rows, and a second [clean_data] leaves a table equal
    to that one. *)
Theorem clean_data_idempotent (σ : store) (T : DataFrame) :
  data σ = Some T ->
  ∃ σ1 σ2, clean_data σ = (Normal tt, σ1)
           ∧ clean_data σ1 = (Normal tt, σ2)
           ∧ data σ1 = Some (drop_duplicates (dropna T))
           ∧ data σ2 = data σ1.
Proof.
  intros H.
  destruct (clean_data_run σ T H) as (σ1 & Hrun1 & Hdata1).
  destruct (clean_data_run σ1 _ Hdata1) as (σ2 & Hrun2 & Hdata2).
  exists σ1, σ2. repeat split; try done.
  rewrite Hdata1, Hdata2. f_equal. apply clean_twice.
Qed.

Lemma clean_data_idempotent_witness :
  data (processor sample_data) = Some sample_data
  ∧ ∃ σ1 σ2, clean_data (processor sample_data) = (Normal tt, σ1)
             ∧ clean_data σ1 = (Normal tt, σ2)
             ∧ data σ1 = Some (drop_duplicates (dropna sample_data))
             ∧ data σ2 = data σ1.
Proof.
  split; [reflexivity|].
  apply (clean_data_idempotent (processor sample_data) sample_data).
  reflexivity.
Defined.

(** C6. Filtering does not mutate the stored table: whatever the
    conditions, and whether the call returns or raises part of the way,
    [self.data] is the same reference afterwards and refers to the same
    table [T], every object of the store is unchanged, and a call that
    returns gives a reference to a new object, distinct from the stored
    one. *)
Theorem filter_data_leaves_source (K : Kernels) (conds : list condition)
    (σ : store) (T : DataFrame) :
  data σ = Some T ->
  self_data (final (filter_data K conds σ)) = self_data σ
  ∧ data (final (filter_data K conds σ)) = Some T
  ∧ (∀ l df, heap σ !! l = Some df ->
             heap (final (filter_data K conds σ)) !! l = Some df)
  ∧ (∀ l, result (filter_data K conds σ) = Normal l ->
          l ≠ self_data σ
          ∧ heap σ !! l = None
          ∧ is_Some (heap (final (filter_data K conds σ)) !! l)).
Proof.
  intros H. destruct (filter_data_run K conds σ T H) as [Hext Hres].
  split; [apply Hext|]. split.
  { unfold data. destruct Hext as [-> Hsub].
    eapply lookup_weaken; [exact H|exact Hsub]. }
  split; [intros l df; by apply extends_lookup|].
  intros l Hl. destruct (Hres l Hl) as [Hnone (T' & HT' & _)].
  split; [|split; [done|by exists T']].
  intros ->. unfold data in H. congruence.
Qed.

Lemma filter_data_leaves_source_witness :
  data (processor sample_data) = Some sample_data
  ∧ data (final (filter_data exact
                   [("value", "greater_than", SInt 20);
                    ("category", "less_than", SInt 1)]
                   (processor sample_data))) = Some sample_data.
Proof.
  split; [reflexivity|].
  refine (proj1 (proj2 (filter_data_leaves_source exact
           [("value", "greater_than", SInt 20);
            ("category", "less_than", SInt 1)]
           (processor sample_data) sample_data _))).
  reflexivity.
Defined.

(** C7. Filtering and cleaning keep the columns: the table a successful
    [filter_data] returns, and the table [clean_data] leaves, have the
    column labels of the stored table, in the same order, and their rows
    are rows of the stored table in their order. *)
Theorem columns_preserved (K : Kernels) (σ : store) (T : DataFrame) :
  data σ = Some T ->
  (∀ conds l, result (filter_data K conds σ) = Normal l ->
     ∃ T', heap (final (filter_data K conds σ)) !! l = Some T'
           ∧ columns T' = columns T
           ∧ rows T' `sublist_of` rows T)
  ∧ (∃ T', result (clean_data σ) = Normal tt
           ∧ data (final (clean_data σ)) = Some T'
           ∧ columns T' = columns T
           ∧ rows T' `sublist_of` rows T).
Proof.
  intros H. split.
  - intros conds l Hl.
    destruct (filter_data_run K conds σ T H) as [_ Hres].
    by destruct (Hres l Hl) as [_ ?].
  - destruct (clean_data_run σ T H) as (σ' & Hrun & Hdata).
    exists (drop_duplicates (dropna T)). rewrite Hrun. simpl.
    repeat split; try done.
    etrans; [apply unseen_sublist | apply filter_sublist].
Qed.

Lemma columns_preserved_witness :
  data (processor sample_data) = Some sample_data
  ∧ ∃ T', heap (final (filter_data exact
                         [("value", "greater_than", SInt 20);
                          ("category", "equals", SStr "A")]
                         (processor sample_data))) !! 4%positive = Some T'
          ∧ columns T' = columns sample_data
          ∧ rows T' `sublist_of` rows sample_data.
Proof.
  split; [reflexivity|].
  refine (proj1 (columns_preserved exact (processor sample_data)
                   sample_data _) _ _ _); reflexivity.
Defined.

(** When the label is among the columns, [df[label]] returns. *)
Lemma column_values_present T column :
  has_column T column = true -> ∃ c, column_values T column = Normal c.
Proof.
  unfold has_column, column_values. intros H%bool_decide_eq_true.
  assert (Hp : ∃ i, position column (columns T) = Some i).
  { induction (columns T) as [|x xs IH]; [by apply elem_of_nil in H|].
    simpl. case_bool_decide; [by eexists|].
    apply elem_of_cons in H as [->|H]; [done|].
    destruct (IH H) as [i ->]. by eexists. }
  destruct Hp as [i ->]. by eexists.
Qed.

(** C8, as the code has it. On a column that is absent
    [calculate_statistics] raises [ValueError] with the not-found
    message and does nothing else. On a column that is present it
    leaves the processor as it was and ends as the five reductions of
    the numeric library end, taken in the order mean, median, std, min,
    max: it returns the dictionary of the five statistics when all of
    them return, and when one raises after those before it returned,
    that exception propagates. So whatever it raises on a present
    column a reduction raised, and it raises the not-found error there
    only if the library itself does. *)
Theorem calculate_statistics_outcome (K : Kernels) (σ : store)
    (T : DataFrame) (column : string) :
  data σ = Some T ->
  (has_column T column = false ->
     calculate_statistics K column σ
     = (Raised (Exn "ValueError" ("Column " +:+ column +:+ " not found in data")),
        σ))
  ∧ (has_column T column = true ->
     ∃ c, column_values T column = Normal c
       ∧ final (calculate_statistics K column σ) = σ
       ∧ (∀ mean median std min max,
            series_mean K c = Normal mean ->
            series_median K c = Normal median ->
            series_std K c = Normal std ->
            series_min K c = Normal min ->
            series_max K c = Normal max ->
            result (calculate_statistics K column σ)
            = Normal [("mean", mean); ("median", median); ("std", std);
                      ("min", min); ("max", max)])
       ∧ (∀ before e after,
            [series_mean K c; series_median K c; series_std K c;
             series_min K c; series_max K c]
            = map Normal before ++ Raised e :: after ->
            result (calculate_statistics K column σ) = Raised e)
       ∧ (∀ e, result (calculate_statistics K column σ) = Raised e ->
            Raised e ∈ [series_mean K c; series_median K c; series_std K c;
                        series_min K c; series_max K c])
       ∧ (Raised (Exn "ValueError"
                    ("Column " +:+ column +:+ " not found in data"))
            ∉ [series_mean K c; series_median K c; series_std K c;
               series_min K c; series_max K c] ->
          result (calculate_statistics K column σ)
          ≠ Raised (Exn "ValueError"
                      ("Column " +:+ column +:+ " not found in data")))).
Proof.
  unfold data. intros H. split.
  - intros Hc.
    unfold calculate_statistics, df_contains, deref, gets, bind, ret, raise.
    rewrite H. simpl. by rewrite Hc.
  - intros Hc. destruct (column_values_present T column Hc) as [c Hcol].
    exists c. split; [done|].
    assert (Hget : df_getitem (self_data σ) column σ = (Normal c, σ)).
    { unfold df_getitem, deref, lift, bind. by rewrite H, Hcol. }
    assert (Hin : df_contains (self_data σ) column σ = (Normal true, σ)).
    { unfold df_contains, deref, ret, bind. by rewrite H, Hc. }
    assert (Hrun : calculate_statistics K column σ
      = (match series_mean K c with
         | Raised e => Raised e
         | Normal mean =>
         match series_median K c with
         | Raised e => Raised e
         | Normal median =>
         match series_std K c with
         | Raised e => Raised e
         | Normal std =>
         match series_min K c with
         | Raised e => Raised e
         | Normal min =>
         match series_max K c with
         | Raised e => Raised e
         | Normal max =>
             Normal [("mean", mean); ("median", median); ("std", std);
                     ("min", min); ("max", max)]
         end end end end end, σ)).
    { unfold calculate_statistics.
      rewrite bind_gets.
      rewrite (bind_normal _ _ _ _ _ Hin). change (negb true) with false.
      cbv beta iota.
      do 5 (rewrite bind_gets, (bind_normal _ _ _ _ _ Hget), bind_lift;
            match goal with
            | |- context [match ?o with Normal _ => _ | Raised _ => _ end] =>
                destruct o; [|reflexivity]
            end).
      reflexivity. }
    rewrite Hrun. unfold final, result. cbn [fst snd].
    assert (Hraised : ∀ e,
      match series_mean K c with
      | Raised e => Raised e
      | Normal mean =>
      match series_median K c with
      | Raised e => Raised e
      | Normal median =>
      match series_std K c with
      | Raised e => Raised e
      | Normal std =>
      match series_min K c with
      | Raised e => Raised e
      | Normal min =>
      match series_max K c with
      | Raised e => Raised e
      | Normal max =>
          Normal [("mean", mean); ("median", median); ("std", std);
                  ("min", min); ("max", max)]
      end end end end end = Raised e ->
      Raised e ∈ [series_mean K c; series_median K c; series_std K c;
                  series_min K c; series_max K c]).
    { intros e.
      destruct (series_mean K c); [|intros [= <-]; set_solver].
      destruct (series_median K c); [|intros [= <-]; set_solver].
      destruct (series_std K c); [|intros [= <-]; set_solver].
      destruct (series_min K c); [|intros [= <-]; set_solver].
      destruct (series_max K c); [|intros [= <-]; set_solver].
      intros [=]. }
    split; [done|]. split; [|split; [|split]].
    + by intros ? ? ? ? ? -> -> -> -> ->.
    + intros before e after Heq.
      destruct before as [|b1 [|b2 [|b3 [|b4 [|b5 before]]]]];
        simpl in Heq; injection Heq as Heq;
        repeat match goal with
               | Hr : _ = Normal _ |- _ => rewrite Hr; clear Hr
               | Hr : _ = Raised _ |- _ => rewrite Hr; clear Hr
               end; try done.
      by destruct before.
    + exact Hraised.
    + intros Hnot Hres. by apply Hnot, Hraised.
Qed.

Lemma calculate_statistics_outcome_witness :
  data (processor sample_data) = Some sample_data
  ∧ calculate_statistics exact "invalid_column" (processor sample_data)
    = (Raised (Exn "ValueError" "Column invalid_column not found in data"),
       processor sample_data).
Proof.
  split; [reflexivity|].
  refine (proj1 (calculate_statistics_outcome exact (processor sample_data)
                   sample_data "invalid_column" _) _); reflexivity.
Defined.

(** C8, as stated, fails on a column of strings: [category] is a column
    of the sample table, and the statistics of it are a [TypeError] of
    the numeric library, not the dictionary. *)
Lemma calculate_statistics_text_column :
  has_column sample_data "category" = true
  ∧ ∃ msg, result (calculate_statistics exact "category"
                     (processor sample_data))
           = Raised (Exn "TypeError" msg).
Proof. split; [reflexivity|]. eexists. reflexivity. Qed.

End TabularSpec.

(** ** The documentation validator *)

Module DocsFacts.
Import Docs.

Section Tracking.
Context {A B : Type}.

Lemma tracked_weaken (P Q : outcome A -> list string -> list string -> Prop)
    (m : V A) :
  (∀ r es ws, P r es ws -> Q r es ws) -> tracked P m -> tracked Q m.
Proof.
  intros HPQ Hm d k. destruct (Hm d k) as (r & es & ws & Ha & HP).
  exists r, es, ws. auto.
Qed.

Lemma tracked_bind
    (P : outcome A -> list string -> list string -> Prop)
    (Q : A -> outcome B -> list string -> list string -> Prop)
    (R : outcome B -> list string -> list string -> Prop)
    (m : V A) (f : A -> V B) :
  tracked P m ->
  (∀ a, tracked (Q a) (f a)) ->
  (∀ e es ws, P (Raised e) es ws -> R (Raised e) es ws) ->
  (∀ a es ws r es' ws',
     P (Normal a) es ws -> Q a r es' ws' -> R r (es ++ es') (ws ++ ws')) ->
  tracked R (bind m f).
Proof.
  intros Hm Hf HR1 HR2 d k.
  destruct (Hm d k) as ([a|e] & es & ws & Ha & HP).
  - destruct (Hf a d k) as (r & es' & ws' & Ha' & HQ).
    exists r, (es ++ es'), (ws ++ ws'). split; [|by eapply HR2].
    intros e0 w0. unfold bind. rewrite Ha, Ha'. by rewrite !app_assoc.
  - exists (Raised e), es, ws. split; [|by apply HR1].
    intros e0 w0. unfold bind. by rewrite Ha.
Qed.

Lemma tracked_try
    (P : outcome A -> list string -> list string -> Prop)
    (Q : exn -> outcome A -> list string -> list string -> Prop)
    (R : outcome A -> list string -> list string -> Prop)
    (is_C : exn -> bool) (m : V A) (h : exn -> V A) :
  tracked P m ->
  (∀ e, tracked (Q e) (h e)) ->
  (∀ a es ws, P (Normal a) es ws -> R (Normal a) es ws) ->
  (∀ e es ws, is_C e = false -> P (Raised e) es ws -> R (Raised e) es ws) ->
  (∀ e es ws r es' ws', is_C e = true ->
     P (Raised e) es ws -> Q e r es' ws' -> R r (es ++ es') (ws ++ ws')) ->
  tracked R (try_except_only is_C m h).
Proof.
  intros Hm Hh HR0 HR1 HR2 d k.
  destruct (Hm d k) as ([a|e] & es & ws & Ha & HP).
  - exists (Normal a), es, ws. split; [|by apply HR0].
    intros e0 w0. unfold try_except_only. by rewrite Ha.
  - destruct (is_C e) eqn:HC.
    + destruct (Hh e d k) as (r & es' & ws' & Ha' & HQ).
      exists r, (es ++ es'), (ws ++ ws'). split; [|by eapply HR2].
      intros e0 w0. unfold try_except_only. rewrite Ha, HC, Ha'.
      by rewrite !app_assoc.
    + exists (Raised e), es, ws. split; [|by apply HR1].
      intros e0 w0. unfold try_except_only. by rewrite Ha, HC.
Qed.

Lemma try_except_all (m : V A) (h : exn -> V A) :
  try_except m h = try_except_only (fun _ => true) m h.
Proof. reflexivity. Qed.

Lemma returns_ret (a : A) : tracked (returns a) (ret a : V A).
Proof.
  intros d k. exists (Normal a), [], []. split; [|done].
  intros e0 w0. unfold ret. by rewrite !app_nil_r.
Qed.

Lemma quiet_lift (o : outcome A) : tracked quiet (lift o : V A).
Proof.
  intros d k. exists o, [], []. split; [|done].
  intros e0 w0. unfold lift. by rewrite !app_nil_r.
Qed.

Lemma quiet_raise (e : exn) : tracked quiet (raise e : V A).
Proof.
  intros d k. exists (Raised e), [], []. split; [|done].
  intros e0 w0. unfold raise. by rewrite !app_nil_r.
Qed.

End Tracking.

Lemma silent_docs_dir : tracked silent (gets docs_dir).
Proof.
  intros d k. exists (Normal d), [], []. split; [|by repeat split; eauto].
  intros e0 w0. unfold gets. simpl. by rewrite !app_nil_r.
Qed.

Lemma silent_mkdocs_file : tracked silent (gets mkdocs_file).
Proof.
  intros d k. exists (Normal k), [], []. split; [|by repeat split; eauto].
  intros e0 w0. unfold gets. simpl. by rewrite !app_nil_r.
Qed.

Lemma errors_append_tracked msg :
  tracked (fun r es ws => r = Normal tt ∧ es = [msg] ∧ ws = [])
          (errors_append msg).
Proof.
  intros d k. exists (Normal tt), [msg], []. split; [|done].
  intros e0 w0. unfold errors_append, modify. simpl. by rewrite app_nil_r.
Qed.

Lemma warnings_append_tracked msg :
  tracked (fun r es ws => r = Normal tt ∧ es = [] ∧ ws = [msg])
          (warnings_append msg).
Proof.
  intros d k. exists (Normal tt), [], [msg]. split; [|done].
  intros e0 w0. unfold warnings_append, modify. simpl. by rewrite app_nil_r.
Qed.

Lemma silent_quiet {A} (m : V A) : tracked silent m -> tracked quiet m.
Proof. apply tracked_weaken. by intros r es ws [-> _]. Qed.

(** *** Flags *)

Lemma flag_ret acc : tracked (flag acc) (ret acc).
Proof.
  eapply tracked_weaken; [|apply returns_ret].
  intros r es ws (-> & -> & _) b [= <-]. tauto.
Qed.

Lemma flag_fail acc msg :
  tracked (flag acc) (errors_append msg ;;; ret false).
Proof.
  eapply tracked_bind;
    [apply errors_append_tracked | intros; apply returns_ret | |].
  - intros e es ws [? _]. done.
  - intros [] es ws r es' ws' (_ & -> & _) (-> & -> & _) b [= <-].
    split; [done|]. by intros [_ ?].
Qed.

Lemma flag_quiet_bind {A} acc (m : V A) (f : A -> V bool) :
  tracked quiet m -> (∀ a, tracked (flag acc) (f a)) ->
  tracked (flag acc) (bind m f).
Proof.
  intros Hm Hf. eapply tracked_bind; [exact Hm | exact Hf | |].
  - intros e es ws _ b [=].
  - intros a es ws r es' ws' -> HQ. exact HQ.
Qed.

Lemma flag_flag_bind acc (m : V bool) (f : bool -> V bool) :
  tracked (flag acc) m -> (∀ b, tracked (flag b) (f b)) ->
  tracked (flag acc) (bind m f).
Proof.
  intros Hm Hf. eapply tracked_bind; [exact Hm | exact Hf | |].
  - intros e es ws _ b [=].
  - intros a es ws r es' ws' HP HQ b ->.
    specialize (HP a eq_refl). specialize (HQ b eq_refl).
    rewrite HQ, HP. split.
    + intros [[-> ->] ->]. done.
    + intros [-> [-> ->]%app_eq_nil]. done.
Qed.

Lemma flag_and acc (m : V bool) :
  tracked (flag true) m ->
  tracked (flag acc) (r <- m ;; ret (acc && r)).
Proof.
  intros Hm. eapply tracked_bind;
    [exact Hm | intros; apply returns_ret | |].
  - intros e es ws _ b [=].
  - intros a es ws r es' ws' HP (-> & -> & _) b [= <-].
    specialize (HP a eq_refl).
    rewrite app_nil_r, andb_true_iff, HP. tauto.
Qed.

Lemma flag_for_fold {A} (body : bool -> A -> V bool) xs :
  (∀ acc x, x ∈ xs -> tracked (flag acc) (body acc x)) ->
  ∀ acc, tracked (flag acc) (for_fold body acc xs).
Proof.
  induction xs as [|x xs IH]; intros Hbody acc; [apply flag_ret|].
  rewrite for_fold_cons. apply flag_flag_bind.
  - apply Hbody. by left.
  - intros b. apply IH. intros acc' y Hy. apply Hbody. by right.
Qed.

Lemma flag_all_of {A} (f : A -> V bool) xs :
  (∀ x, tracked (flag true) (f x)) -> tracked (flag true) (all_of f xs).
Proof.
  intros Hf. induction xs as [|x xs IH]; [apply flag_ret|].
  simpl. apply flag_flag_bind; [apply Hf|].
  intros [|]; [exact IH | apply flag_ret].
Qed.

(** A library call under [try], with the handler that records an error
    and clears the flag. *)
Lemma flag_guarded_only acc is_C (o : outcome unit) (msg : exn -> string) :
  tracked (flag acc)
    (try_except_only is_C
       (lift o ;;; ret acc)
       (fun e => errors_append (msg e) ;;; ret false)).
Proof.
  intros d k. destruct o as [[]|e]; [|destruct (is_C e) eqn:HC].
  - exists (Normal acc), [], []. split.
    + intros e0 w0. by rewrite !app_nil_r.
    + intros b [= <-]. tauto.
  - exists (Normal false), [msg e], []. split.
    + intros e0 w0. unfold try_except_only, bind, lift. simpl.
      by rewrite HC, app_nil_r.
    + intros b [= <-]. split; [done|]. by intros [_ ?].
  - exists (Raised e), [], []. split.
    + intros e0 w0. unfold try_except_only, bind, lift. simpl.
      by rewrite HC, !app_nil_r.
    + intros b [=].
Qed.

Lemma flag_guarded_all acc (o : outcome unit) (msg : exn -> string) :
  tracked (fun r es ws => ws = [] ∧ (∃ b, r = Normal b) ∧ flag acc r es ws)
    (try_except
       (lift o ;;; ret acc)
       (fun e => errors_append (msg e) ;;; ret false)).
Proof.
  intros d k. destruct o as [[]|e].
  - exists (Normal acc), [], []. split.
    + intros e0 w0. by rewrite !app_nil_r.
    + split; [done|]. split; [by eexists|]. intros b [= <-]. tauto.
  - exists (Normal false), [msg e], []. split.
    + intros e0 w0. unfold try_except, bind, lift. simpl. by rewrite app_nil_r.
    + split; [done|]. split; [by eexists|].
      intros b [= <-]. split; [done|]. by intros [_ ?].
Qed.

Lemma quiet_bind {A B} (m : V A) (f : A -> V B) :
  tracked quiet m -> (∀ a, tracked quiet (f a)) -> tracked quiet (bind m f).
Proof.
  intros Hm Hf. eapply tracked_bind; [exact Hm | exact Hf | |].
  - by intros e es ws ->.
  - by intros a es ws r es' ws' -> ->.
Qed.

Lemma quiet_ret {A} (a : A) : tracked quiet (ret a : V A).
Proof.
  eapply tracked_weaken; [|apply returns_ret]. by intros r es ws (_ & -> & _).
Qed.

Lemma quiet_warnings_append msg : tracked quiet (warnings_append msg).
Proof.
  eapply tracked_weaken; [|apply warnings_append_tracked].
  by intros r es ws (_ & -> & _).
Qed.

Lemma quiet_for_fold {A B} (body : B -> A -> V B) xs :
  (∀ acc x, tracked quiet (body acc x)) ->
  ∀ acc, tracked quiet (for_fold body acc xs).
Proof.
  intros Hbody. induction xs as [|x xs IH]; intros acc; [apply quiet_ret|].
  rewrite for_fold_cons. apply quiet_bind; [apply Hbody | apply IH].
Qed.

(** *** Induction on YAML values and on manifest nodes *)

Lemma yaml_nested_ind (P : yaml -> Prop) :
  P YNull -> (∀ b, P (YBool b)) -> (∀ z, P (YInt z)) -> (∀ s, P (YStr s)) ->
  (∀ items, Forall P items -> P (YList items)) ->
  (∀ entries, Forall (fun e => P (snd e)) entries -> P (YDict entries)) ->
  ∀ y, P y.
Proof.
  intros HN HB HI HS HL HD. fix IH 1. intros [| b | z | s | items | entries].
  - exact HN.
  - apply HB.
  - apply HI.
  - apply HS.
  - apply HL. revert items. fix IHl 1. intros [|y items]; constructor.
    + apply IH.
    + apply IHl.
  - apply HD. revert entries. fix IHl 1. intros [|[k y] entries]; constructor.
    + apply IH.
    + apply IHl.
Qed.

Lemma nav_node_nested_ind (P : nav_node -> Prop) :
  (∀ title path, P (Leaf title path)) ->
  (∀ title children, Forall P children -> P (Branch title children)) ->
  ∀ n, P n.
Proof.
  intros HLeaf HBranch. fix IH 1. intros [title path | title children].
  - apply HLeaf.
  - apply HBranch. revert children. fix IHl 1. intros [|c children]; constructor.
    + apply IH.
    + apply IHl.
Qed.

(** *** Every check keeps its flag in step with the errors *)

Section Flags.
Context (w : World).

Ltac quiet_step :=
  first [ apply silent_quiet, silent_docs_dir
        | apply silent_quiet, silent_mkdocs_file
        | apply quiet_lift
        | apply quiet_raise
        | apply quiet_ret ].

Ltac flag_step :=
  first [ apply flag_ret
        | apply flag_fail
        | apply flag_guarded_only
        | apply flag_quiet_bind; [quiet_step | intros ?]
        | apply flag_for_fold; intros ? ? _
        | match goal with
          | |- tracked _ (if ?c then _ else _) => destruct c
          | |- tracked _ (match ?x with pair _ _ => _ end) => destruct x
          end ].

Lemma quiet_join_docs path : tracked quiet (join_docs w path).
Proof.
  destruct path; simpl; try apply quiet_raise.
  apply quiet_bind; [quiet_step | intros; apply quiet_ret].
Qed.

Lemma check_nav_item_dict acc entries :
  check_nav_item w acc (YDict entries)
  = for_fold (fun success entry =>
      match snd entry with
      | YList children =>
          r <- for_fold (check_nav_item w) true children ;;
          ret (success && r)
      | path =>
          file_path <- join_docs w path ;;
          present <- lift (path_exists w file_path) ;;
          if negb present then
            errors_append ("Missing file: " +:+ file_path) ;;;
            ret false
          else ret success
      end) acc entries.
Proof. reflexivity. Qed.

Lemma check_nav_item_flag item :
  (∀ acc, tracked (flag acc) (check_nav_item w acc item))
  ∧ (∀ children, item = YList children ->
       ∀ c, c ∈ children -> ∀ acc, tracked (flag acc) (check_nav_item w acc c)).
Proof.
  induction item as [| | | | items IH | entries IH] using yaml_nested_ind;
    (split; [|try discriminate]); try (intros acc; apply flag_ret).
  - intros children [= <-] c Hc.
    rewrite Forall_forall in IH. apply (IH c Hc).
  - intros acc. rewrite check_nav_item_dict.
    apply flag_for_fold. intros success entry Hentry.
    rewrite Forall_forall in IH. specialize (IH entry Hentry).
    destruct (snd entry) as [| | | | children |];
      try (apply flag_quiet_bind; [apply quiet_join_docs|];
           intros ?; repeat flag_step).
    apply flag_and, flag_for_fold. intros acc' c Hc.
    by apply (proj2 IH children eq_refl).
Qed.

Lemma check_files_exist_flag : tracked (flag true) (check_files_exist w).
Proof.
  unfold check_files_exist, check_nav_items. do 4 flag_step.
  apply flag_for_fold. intros acc item _. apply check_nav_item_flag.
Qed.

Lemma validate_internal_links_flag :
  tracked (flag true) (validate_internal_links w).
Proof. unfold validate_internal_links. repeat (cbv zeta; flag_step). Qed.

Lemma validate_code_blocks_flag : tracked (flag true) (validate_code_blocks w).
Proof. unfold validate_code_blocks. repeat (cbv zeta; flag_step). Qed.

Lemma validate_api_docs_flag : tracked (flag true) (validate_api_docs w).
Proof. unfold validate_api_docs. repeat (cbv zeta; flag_step). Qed.

Lemma check_image_references_flag :
  tracked (flag true) (check_image_references w).
Proof. unfold check_image_references. repeat (cbv zeta; flag_step). Qed.

Lemma validate_nav_item_dict entries :
  validate_nav_item (YDict entries)
  = for_fold (fun success entry =>
      success <- (if negb (is_str_key (fst entry)) then
                    errors_append
                      ("Invalid navigation title: " +:+ key_str (fst entry)) ;;;
                    ret false
                  else ret success) ;;
      match snd entry with
      | YList children =>
          for_fold (fun success child =>
            r <- validate_nav_item child ;;
            ret (success && r)) success children
      | _ => ret success
      end) true entries.
Proof. reflexivity. Qed.

Lemma validate_nav_item_flag item :
  tracked (flag true) (validate_nav_item item)
  ∧ (∀ children, item = YList children ->
       ∀ c, c ∈ children -> tracked (flag true) (validate_nav_item c)).
Proof.
  induction item as [| | | | items IH | entries IH] using yaml_nested_ind;
    (split; [|try discriminate]); try apply flag_ret.
  - intros children [= <-] c Hc.
    rewrite Forall_forall in IH. apply (IH c Hc).
  - rewrite validate_nav_item_dict.
    apply flag_for_fold. intros success entry Hentry.
    rewrite Forall_forall in IH. specialize (IH entry Hentry).
    apply flag_flag_bind; [repeat flag_step|]. intros success'.
    destruct (snd entry) as [| | | | children |]; try apply flag_ret.
    apply flag_for_fold. intros acc c Hc.
    by apply flag_and, (proj2 IH children eq_refl).
Qed.

Lemma validate_navigation_flag : tracked (flag true) (validate_navigation w).
Proof.
  unfold validate_navigation. do 4 flag_step.
  apply flag_all_of. intros item. apply validate_nav_item_flag.
Qed.

Lemma quiet_heading_step md_file level heading :
  tracked quiet (heading_step md_file level heading).
Proof.
  destruct heading as [hashes title]. unfold heading_step.
  apply quiet_bind; [|intros; apply quiet_ret].
  destruct (_ >? _)%Z; [apply quiet_warnings_append | apply quiet_ret].
Qed.

Lemma markdown_file_flag acc md_file :
  tracked (flag acc) (markdown_file w acc md_file).
Proof.
  unfold markdown_file. flag_step.
  apply flag_quiet_bind.
  - apply quiet_for_fold. intros. apply quiet_heading_step.
  - intros _. eapply tracked_weaken; [|apply flag_guarded_all].
    by intros r es ws (_ & _ & ?).
Qed.

Lemma validate_markdown_flag : tracked (flag true) (validate_markdown w).
Proof.
  unfold validate_markdown. flag_step.
  apply flag_for_fold. intros. apply markdown_file_flag.
Qed.

(** The seven checks of [validate_all]. *)
Lemma checks_flag :
  Forall (fun c => tracked (flag true) (snd c)) (checks w).
Proof.
  unfold checks. repeat constructor; simpl.
  - apply check_files_exist_flag.
  - apply validate_internal_links_flag.
  - apply validate_code_blocks_flag.
  - apply validate_api_docs_flag.
  - apply validate_navigation_flag.
  - apply check_image_references_flag.
  - apply validate_markdown_flag.
Qed.

End Flags.

(** *** The loop of [validate_all] *)

Lemma run_check_tracked acc (c : string * V bool) :
  tracked (flag true) (snd c) ->
  tracked (fun r es ws => (∃ b, r = Normal b) ∧ flag acc r es ws)
          (run_check acc c).
Proof.
  intros Hc d k. destruct (Hc d k) as ([b|e] & es & ws & Ha & HP).
  - exists (Normal (if negb b then false else acc)), es, ws. split.
    + intros e0 w0. unfold run_check, try_except, bind. rewrite Ha.
      by destruct b.
    + split; [by eexists|]. intros b' [= <-].
      specialize (HP b eq_refl). destruct b; simpl.
      * destruct (proj1 HP eq_refl) as [_ ->]. tauto.
      * split; [done|]. intros [_ Hes]. by apply HP.
  - exists (Normal false),
      (es ++ ["Error in " +:+ fst c +:+ ": " +:+ exn_str e]), ws. split.
    + intros e0 w0. unfold run_check, try_except, bind. rewrite Ha.
      unfold errors_append, modify, ret. simpl.
      by rewrite app_assoc.
    + split; [by eexists|]. intros b' [= <-]. split; [done|].
      intros [_ Hes]. by apply app_eq_nil in Hes as [_ ?].
Qed.

Lemma run_checks_tracked cs :
  Forall (fun c => tracked (flag true) (snd c)) cs ->
  ∀ acc, tracked (fun r es ws => (∃ b, r = Normal b) ∧ flag acc r es ws)
                 (for_fold run_check acc cs).
Proof.
  induction 1 as [|c cs Hc _ IH]; intros acc.
  - eapply tracked_weaken; [|apply returns_ret].
    intros r es ws (-> & -> & _). split; [by eexists|].
    intros b [= <-]. tauto.
  - rewrite for_fold_cons.
    eapply tracked_bind; [apply (run_check_tracked acc c Hc) | apply IH | |].
    + by intros e es ws [[b [=]] _].
    + intros a es ws r es' ws' [_ HP] [Hr HQ]. split; [done|].
      intros b ->. specialize (HP a eq_refl). specialize (HQ b eq_refl).
      rewrite HQ, HP. split.
      * by intros [[-> ->] ->].
      * by intros [-> [-> ->]%app_eq_nil].
Qed.

(** One turn of the loop is the guarded run of the check. *)
Lemma run_check_guarded acc c v :
  run_check acc c v = (Normal (acc && fst (guarded c v)), snd (guarded c v)).
Proof.
  unfold run_check, try_except, bind, guarded.
  destruct (snd c v) as [[passed|e] v1]; simpl.
  - by destruct passed, acc.
  - by destruct acc.
Qed.

(** The loop is the guarded run of every check, in order. *)
Lemma run_checks_guarded cs : ∀ acc v,
  for_fold run_check acc cs v
  = (Normal (acc && fst (guarded_all cs v)), snd (guarded_all cs v)).
Proof.
  induction cs as [|c cs IH]; intros acc v.
  - simpl. unfold ret. by rewrite andb_true_r.
  - rewrite for_fold_cons.
    rewrite (bind_normal _ _ _ _ _ (run_check_guarded acc c v)), IH.
    simpl guarded_all. destruct (guarded c v) as [passed v1]. simpl.
    destruct (guarded_all cs v1) as [rest v2]. simpl.
    by rewrite andb_assoc.
Qed.

(** *** The walk of [check_files_exist] over a manifest *)

Lemma missing_files_app w d p q :
  missing_files w d (p ++ q) = missing_files w d p ++ missing_files w d q.
Proof. unfold missing_files. by rewrite map_app, List.filter_app. Qed.

Lemma nil_app_decide (l1 l2 : list string) :
  bool_decide (l1 ++ l2 = []) = bool_decide (l1 = []) && bool_decide (l2 = []).
Proof.
  by destruct l1.
Qed.

Section Walk.
Context (w : World).

Lemma check_nav_nodes nodes :
  Forall (fun n => walked w (fun acc => check_nav_item w acc (nav_yaml n))
                          (leaf_paths n)) nodes ->
  walked w (fun acc => for_fold (check_nav_item w) acc (map nav_yaml nodes))
         (flat_map leaf_paths nodes).
Proof.
  induction 1 as [|n nodes Hn _ IH]; intros acc d k e0 w0 Hanswers.
  - simpl. unfold ret. by rewrite andb_true_r, app_nil_r.
  - simpl flat_map in *. apply Forall_app in Hanswers as [Hfirst Hrest].
    simpl map. rewrite for_fold_cons.
    rewrite (bind_normal _ _ _ _ _ (Hn acc d k e0 w0 Hfirst)), IH by done.
    rewrite missing_files_app, nil_app_decide, map_app.
    by rewrite andb_assoc, app_assoc.
Qed.

Lemma check_nav_node n :
  walked w (fun acc => check_nav_item w acc (nav_yaml n)) (leaf_paths n).
Proof.
  induction n as [title path | title children IH] using nav_node_nested_ind;
    intros acc d k e0 w0 Hanswers; simpl nav_yaml;
    rewrite check_nav_item_dict.
  - apply Forall_cons in Hanswers as [[present Hpresent] _].
    unfold missing_files, absent. simpl.
    unfold bind, gets, ret, lift, errors_append, modify. simpl.
    rewrite Hpresent. destruct present; simpl.
    + by rewrite andb_true_r, app_nil_r.
    + by rewrite andb_false_r.
  - rewrite for_fold_cons. simpl snd. unfold bind.
    rewrite (check_nav_nodes children IH true d k e0 w0 Hanswers). by simpl.
Qed.

End Walk.

(** *** The heading loop of [validate_markdown] *)

Section Headings.
Context (w : World).








End Headings.

(** *** The report on the console *)

Lemma emit_run c p shown :
  emit c p shown
  = match console_print c p with
    | Normal _ => (Normal tt, shown ++ [p])
    | Raised e => (Raised e, shown)
    end.
Proof.
  unfold emit, bind, lift, modify. by destruct (console_print c p).
Qed.

(** On a report without errors [print_report] prints the heading and
    then the table of the warnings or the line that all checks passed,
    and ends where the console first raises. *)
Lemma print_report_without_errors c v shown :
  errors v = [] ->
  print_report c v shown
  = match console_print c report_heading with
    | Raised e => (Raised e, shown)
    | Normal _ =>
        match console_print c (closing v) with
        | Raised e => (Raised e, shown ++ [report_heading])
        | Normal _ => (Normal tt, shown ++ [report_heading; closing v])
        end
    end.
Proof.
  intros He. unfold print_report, closing. rewrite He.
  unfold bind at 1. rewrite emit_run.
  destruct (console_print c report_heading) as [[]|e]; [|done].
  destruct (warnings v) as [|x ws] eqn:Hw; simpl.
  - unfold bind, ret. rewrite emit_run.
    destruct (console_print c passed_line); [|done].
    by rewrite <- app_assoc.
  - unfold bind, ret. rewrite emit_run. unfold warnings_table. rewrite Hw.
    destruct (console_print c _); [|done].
    by rewrite <- app_assoc.
Qed.

(** The line that all checks passed is printed on a clean report
    only. *)
Lemma passed_line_shown c v :
  passed_line ∈ final (print_report c v []) ->
  errors v = [] ∧ warnings v = [].
Proof.
  unfold print_report, final, bind, ret. rewrite !emit_run.
  destruct (console_print c report_heading) as [[]|e];
    [|by intros ?%elem_of_nil].
  destruct (errors v) as [|x es] eqn:He, (warnings v) as [|y ws] eqn:Hw;
    simpl; rewrite ?emit_run; try done;
    repeat match goal with
           | |- context [console_print c ?p] => destruct (console_print c p)
           end; simpl; rewrite ?emit_run;
    repeat match goal with
           | |- context [console_print c ?p] => destruct (console_print c p)
           end; simpl;
    intros Hin; exfalso;
    repeat (apply elem_of_cons in Hin as [Hin|Hin]; [discriminate Hin|]);
    by apply elem_of_nil in Hin.
Qed.

(** [main] runs [validate_all], which returns, and then
    [print_report]. *)
Lemma main_run w c :
  ∃ success,
    (success = true ↔ errors (validated w) = [])
    ∧ main w c
      = (final (print_report c (validated w) []),
         match result (print_report c (validated w) []) with
         | Normal _ => if success then 0 else 1
         | Raised _ => 1
         end).
Proof.
  destruct (run_checks_tracked (checks w) (checks_flag w) true
              "docs" "mkdocs.yml") as (r & es & ws & Ha & [b ->] & HF).
  specialize (Ha [] []). specialize (HF b eq_refl).
  exists b. unfold main, validated, validate_all, run_checks, init.
  rewrite Ha. unfold final, result. cbn [fst snd errors].
  split; [rewrite HF; tauto|].
  by destruct (print_report c _ []) as [[[]|e] shown].
Qed.

End DocsFacts.

Module DocsSpec.
Import Docs DocsFacts Sample.

(** *** The report across runs *)

(** C1, as stated, fails: the report is emptied by [__init__] only. A
    second [validate_all] on the same validator leaves the error of the
    first run in front of its own. *)
Lemma validate_all_twice_accumulates :
  errors (final (validate_all tree (init "docs" "mkdocs.yml")))
  = ["Missing file: docs/guide/usage.md"]
  ∧ errors (final (validate_all tree
                     (final (validate_all tree (init "docs" "mkdocs.yml")))))
    = ["Missing file: docs/guide/usage.md";
       "Missing file: docs/guide/usage.md"].
Proof. split; reflexivity. Qed.

(** C1, as the code has it. [validate_all] only appends to the report:
    what was recorded before the call is kept, in front, and the entries
    the run adds, like its result, do not depend on it. So the report
    holds the entries of one run alone exactly when it was empty before,
    as it is on a validator just constructed. *)
Theorem validate_all_appends (w : World) (d k : string) :
  ∃ r es ws,
    (∀ e0 w0, validate_all w (Validator d k e0 w0)
              = (r, Validator d k (e0 ++ es) (w0 ++ ws)))
    ∧ validate_all w (init d k) = (r, Validator d k es ws).
Proof.
  destruct (run_checks_tracked (checks w) (checks_flag w) true d k)
    as (r & es & ws & Ha & _).
  exists r, es, ws. split; [exact Ha|]. apply (Ha [] []).
Qed.

(** *** The exit status *)



(** A run with a warning and no error exits with status 0 when the
    console can print the warning. *)
Example warnings_only_exit_zero :
  warnings (validated complete_tree)
  = ["Skipped heading level in docs/index.md: Welcome"]
  ∧ exit_status complete_tree rich = 0.
Proof. split; reflexivity. Qed.

(** *** The orchestration *)

(** C3. [validate_all] runs the seven checks in the listed order and
    always returns: it is the guarded run of every check, each from the
    state the one before left. A check that raises adds one error
    naming it and the message and counts as failed, the checks after it
    still run, and the result is the conjunction of the results. *)
Theorem validate_all_isolates_checks (w : World) (v : DocsValidator) :
  map fst (checks w)
  = ["check_files_exist"; "validate_internal_links"; "validate_code_blocks";
     "validate_api_docs"; "validate_navigation"; "check_image_references";
     "validate_markdown"]
  ∧ validate_all w v
    = (Normal (fst (guarded_all (checks w) v)),
       snd (guarded_all (checks w) v)).
Proof.
  split; [reflexivity|].
  unfold validate_all, run_checks. by rewrite run_checks_guarded.
Qed.

(** A manifest that cannot be opened: the two checks that load it raise,
    each is recorded under its name, and the checks after them still
    run, as the warning of the last one shows. *)
Example validate_all_survives_raising_checks :
  validate_all tree (init "docs" "absent.yml")
  = (Normal false,
     Validator "docs" "absent.yml"
       ["Error in check_files_exist: [Errno 2] No such file or directory: 'absent.yml'";
        "Error in validate_navigation: [Errno 2] No such file or directory: 'absent.yml'"]
       ["Skipped heading level in docs/index.md: Welcome"]).
Proof. reflexivity. Qed.

(** *** The file-existence check *)



(** *** The heading tracker *)



End DocsSpec.

(** ** More of the tabular processor *)

Module TabularMoreFacts.
Import Tabular TabularFacts TabularMore.

(** *** What [drop_duplicates] keeps *)

Lemma unseen_avoids seen rs r : r ∈ unseen seen rs -> snd r ∉ seen.
Proof.
  revert seen. induction rs as [|x rs IH]; intros seen; simpl.
  - by intros ?%elem_of_nil.
  - case_bool_decide as Hx.
    + apply IH.
    + intros [->|Hr]%elem_of_cons; [done|].
      apply IH in Hr. intros Hin. apply Hr. by right.
Qed.

Lemma unseen_distinct seen rs : NoDup (map snd (unseen seen rs)).
Proof.
  revert seen. induction rs as [|x rs IH]; intros seen; simpl.
  - constructor.
  - case_bool_decide as Hx; [apply IH|].
    simpl. apply NoDup_cons. split; [|apply IH].
    intros (r & Heq & Hr)%list_elem_of_fmap.
    apply unseen_avoids in Hr. apply Hr. rewrite <- Heq. by left.
Qed.

Lemma unseen_fixed seen rs :
  NoDup (map snd rs) -> (∀ r, r ∈ rs -> snd r ∉ seen) -> unseen seen rs = rs.
Proof.
  revert seen. induction rs as [|x rs IH]; intros seen Hnd Hseen; [done|].
  simpl in *. apply NoDup_cons in Hnd as [Hx Hnd].
  rewrite bool_decide_eq_false_2 by (apply Hseen; by left).
  f_equal. apply IH; [done|].
  intros r Hr [Heq|Hin]%elem_of_cons.
  - apply Hx. rewrite <- Heq. by apply (list_elem_of_fmap_2 snd).
  - by apply (Hseen r); [right|].
Qed.

Lemma unseen_contents seen rs cells :
  cells ∈ map snd (unseen seen rs) ↔ cells ∈ map snd rs ∧ cells ∉ seen.
Proof.
  revert seen. induction rs as [|x rs IH]; intros seen; simpl.
  - split; [by intros ?%elem_of_nil | by intros [?%elem_of_nil _]].
  - case_bool_decide as Hx.
    + rewrite IH, elem_of_cons. split; [tauto|].
      intros [[->|?] ?]; tauto.
    + simpl. rewrite !elem_of_cons, IH, elem_of_cons. split.
      * intros [->|[? Hn]]; [tauto|]. split; [tauto|]. tauto.
      * intros [[->|?] ?]; [tauto|].
        destruct (decide (cells = snd x)); tauto.
Qed.

Lemma filter_elem {A} (f : A -> bool) xs x :
  x ∈ List.filter f xs ↔ x ∈ xs ∧ f x = true.
Proof.
  rewrite !list_elem_of_In. apply filter_In.
Qed.

Lemma frame_eta T : Frame (columns T) (rows T) = T.
Proof. by destruct T. Qed.

(** *** [filter_data] through the tables *)

Section Tables.
Context (K : Kernels).

Lemma filter_step_table fd c σ F :
  heap σ !! fd = Some F ->
  filter_step K fd c σ
  = match apply_condition K F c with
    | Normal F' =>
        (Normal (fresh (dom (heap σ))),
         Store (<[fresh (dom (heap σ)) := F']> (heap σ)) (self_data σ))
    | Raised e => (Raised e, σ)
    end.
Proof.
  intros H. destruct c as [[column operator] value].
  unfold filter_step, apply_condition, cmp_of.
  repeat case_bool_decide;
    try (unfold df_getitem, df_getitem_mask, deref, new, lift, bind;
         rewrite H; destruct (column_values F column) as [col|e]; [|done];
         destruct (series_cmp K _ col value) as [mask|e]; [|done];
         by rewrite H).
  done.
Qed.

Lemma filter_loop_table conds : ∀ fd σ F,
  heap σ !! fd = Some F ->
  returned (for_fold (filter_step K) fd conds σ) = filter_table K F conds.
Proof.
  induction conds as [|c conds IH]; intros fd σ F H.
  - unfold returned. simpl. by rewrite H.
  - rewrite for_fold_cons. unfold bind.
    rewrite (filter_step_table fd c σ F H). simpl.
    destruct (apply_condition K F c) as [F'|e]; [|done].
    apply IH. apply lookup_insert_eq.
Qed.

Lemma filter_data_table conds σ T :
  data σ = Some T ->
  returned (filter_data K conds σ) = filter_table K T conds.
Proof.
  unfold data. intros H.
  unfold filter_data, df_copy, deref, new, gets, bind. rewrite H.
  apply filter_loop_table. apply lookup_insert_eq.
Qed.

Lemma returned_normal r T :
  returned r = Normal T ->
  ∃ l, result r = Normal l ∧ heap (final r) !! l = Some T.
Proof.
  unfold returned, result, final. destruct (fst r) as [l|e]; [|done].
  destruct (heap (snd r) !! l) as [T'|] eqn:E; [|done].
  intros [= <-]. eauto.
Qed.


Lemma filter_table_app T conds1 conds2 :
  filter_table K T (conds1 ++ conds2)
  = match filter_table K T conds1 with
    | Normal T1 => filter_table K T1 conds2
    | Raised e => Raised e
    end.
Proof.
  revert T. induction conds1 as [|c conds1 IH]; intros T; simpl; [done|].
  destruct (apply_condition K T c) as [T'|e]; [apply IH|done].
Qed.

Lemma apply_condition_normal T c T' :
  apply_condition K T c = Normal T' ->
  columns T' = columns T
  ∧ is_Some (cmp_of (snd (fst c)))
  ∧ fst (fst c) ∈ columns T.
Proof.
  destruct c as [[column operator] value]. unfold apply_condition. simpl.
  destruct (cmp_of operator) as [op|]; [|done].
  unfold column_values.
  destruct (position column (columns T)) as [i|] eqn:Hpos; [|done].
  destruct (series_cmp K op _ value) as [mask|e]; [|done].
  intros [= <-]. split; [done|]. split; [by eexists|].
  clear -Hpos. revert i Hpos.
  induction (columns T) as [|x xs IH]; intros i; simpl; [done|].
  case_bool_decide as Hx; [subst; intros _; by left|].
  destruct (position column xs) as [j|]; [|done].
  intros _. right. by eapply IH.
Qed.

End Tables.

(** *** Counting the missing cells *)

Lemma null_count_zero T i :
  null_count T i = 0%nat ↔ ∀ r, r ∈ rows T -> is_na (nth i (snd r) NA) = false.
Proof.
  unfold null_count. induction (rows T) as [|x xs IH]; simpl.
  - split; [by intros _ r ?%elem_of_nil | done].
  - destruct (is_na (nth i (snd x) NA)) eqn:Hx; simpl.
    + split; [done|]. intros H. specialize (H x (list_elem_of_here _ _)).
      congruence.
    + rewrite IH. split.
      * intros H r [->|Hr]%elem_of_cons; auto.
      * intros H r Hr. apply H. by right.
Qed.

Lemma complete_nth (cells : list cell) :
  forallb (fun c => negb (is_na c)) cells = true
  ↔ ∀ i, (i < length cells)%nat -> is_na (nth i cells NA) = false.
Proof.
  induction cells as [|c cells IH]; simpl.
  - split; [intros _ i; lia | done].
  - rewrite andb_true_iff, IH, negb_true_iff. split.
    + intros [Hc H] [|i] Hi; [done|]. apply H. lia.
    + intros H. split; [apply (H 0%nat); lia|].
      intros i Hi. apply (H (S i)). lia.
Qed.

Lemma isnull_sum_zero T :
  Forall (fun p => snd p = 0%nat) (isnull_sum T)
  ↔ ∀ i, (i < length (columns T))%nat -> null_count T i = 0%nat.
Proof.
  unfold isnull_sum. rewrite Forall_lookup. split.
  - intros H i Hi.
    destruct (lookup_lt_is_Some_2 (columns T) i Hi) as [label Hl].
    apply (H i (label, null_count T i)).
    by rewrite list_lookup_imap, Hl.
  - intros H i [label n]. rewrite list_lookup_imap.
    destruct (columns T !! i) as [l|] eqn:Hl; [|done].
    intros [= <- <-]. simpl. apply H. by eapply lookup_lt_Some.
Qed.

End TabularMoreFacts.

Module TabularMoreSpec.
Import Tabular TabularFacts TabularMore TabularMoreFacts Sample.

Lemma complete_no_missing (r : Z * list cell) :
  complete r = true ↔ NA ∉ snd r.
Proof.
  unfold complete. rewrite forallb_forall. split.
  - intros H Hin. apply list_elem_of_In, H in Hin. done.
  - intros H c Hc. destruct c; [done|]. by apply list_elem_of_In in Hc.
Qed.

(** The run of [clean_data], object by object. *)
Lemma clean_data_objects σ T :
  data σ = Some T ->
  clean_data σ
  = (Normal tt,
     Store (<[fresh (dom (<[fresh (dom (heap σ)) := dropna T]> (heap σ)))
              := drop_duplicates (dropna T)]>
              (<[fresh (dom (heap σ)) := dropna T]> (heap σ)))
           (fresh (dom (<[fresh (dom (heap σ)) := dropna T]> (heap σ))))).
Proof.
  unfold data. intros H.
  unfold clean_data, df_dropna, df_drop_duplicates, deref, new,
    set_self_data, modify, gets, bind, ret. simpl.
  rewrite H. simpl. by rewrite lookup_insert_eq.
Qed.

(** X1. After [clean_data] the table has no missing cell and no two of
    its rows hold the same cells. *)
Theorem clean_data_postcondition (σ : store) (T : DataFrame) :
  data σ = Some T ->
  ∃ T', data (final (clean_data σ)) = Some T'
        ∧ Forall (fun r => NA ∉ snd r) (rows T')
        ∧ NoDup (map snd (rows T')).
Proof.
  intros H. destruct (clean_data_run σ T H) as (σ' & Hrun & Hdata).
  exists (drop_duplicates (dropna T)). rewrite Hrun. split; [done|]. split.
  - simpl. eapply sublist_keeps_Forall; [apply unseen_sublist|].
    eapply Forall_impl; [apply filter_Forall|].
    intros r Hr. simpl in Hr. by apply complete_no_missing.
  - apply unseen_distinct.
Qed.

Lemma clean_data_postcondition_witness :
  data (processor sample_data) = Some sample_data
  ∧ ∃ T', data (final (clean_data (processor sample_data))) = Some T'
          ∧ Forall (fun r => NA ∉ snd r) (rows T')
          ∧ NoDup (map snd (rows T')).
Proof.
  split; [reflexivity|].
  apply (clean_data_postcondition (processor sample_data) sample_data).
  reflexivity.
Defined.

(** X2. On a table without a missing cell and without two rows of equal
    cells [clean_data] changes nothing: the table it leaves is the same
    table, rows, order and index labels included. *)
Theorem clean_data_fixed_point (σ : store) (T : DataFrame) :
  data σ = Some T ->
  Forall (fun r => NA ∉ snd r) (rows T) ->
  NoDup (map snd (rows T)) ->
  data (final (clean_data σ)) = Some T.
Proof.
  intros H Hna Hnd. destruct (clean_data_run σ T H) as (σ' & Hrun & Hdata).
  rewrite Hrun. simpl. rewrite Hdata. f_equal.
  unfold drop_duplicates, dropna. simpl.
  rewrite filter_all.
  - rewrite unseen_fixed; [apply frame_eta | done |].
    intros r _. apply not_elem_of_nil.
  - eapply Forall_impl; [exact Hna|]. intros r Hr. by apply complete_no_missing.
Qed.

Lemma clean_data_fixed_point_witness :
  data (final (clean_data (processor tidy_data))) = Some tidy_data.
Proof.
  apply (clean_data_fixed_point (processor tidy_data) tidy_data).
  - reflexivity.
  - refine (bool_decide_unpack _ _). vm_compute. exact I.
  - refine (bool_decide_unpack _ _). vm_compute. exact I.
Defined.

(** X3. [clean_data] loses no content but missing values and repeats:
    the rows of the cleaned table hold exactly the cell tuples of the
    rows of the table that have no missing cell. *)
Theorem clean_data_keeps_contents (σ : store) (T : DataFrame) :
  data σ = Some T ->
  ∃ T', data (final (clean_data σ)) = Some T'
        ∧ ∀ cells, cells ∈ map snd (rows T')
                   ↔ cells ∈ map snd (rows T) ∧ NA ∉ cells.
Proof.
  intros H. destruct (clean_data_run σ T H) as (σ' & Hrun & Hdata).
  exists (drop_duplicates (dropna T)). rewrite Hrun. split; [done|].
  intros cells. simpl. rewrite unseen_contents.
  split.
  - intros [(r & -> & Hr)%list_elem_of_fmap _].
    apply filter_elem in Hr as [Hr Hc]. split.
    + by apply (list_elem_of_fmap_2 snd).
    + by apply complete_no_missing.
  - intros [(r & -> & Hr)%list_elem_of_fmap Hna].
    split; [|apply not_elem_of_nil].
    apply (list_elem_of_fmap_2 snd), filter_elem. split; [done|].
    by apply complete_no_missing.
Qed.

Lemma clean_data_keeps_contents_witness :
  data (processor sample_data) = Some sample_data
  ∧ ∃ T', data (final (clean_data (processor sample_data))) = Some T'
          ∧ ∀ cells, cells ∈ map snd (rows T')
                     ↔ cells ∈ map snd (rows sample_data) ∧ NA ∉ cells.
Proof.
  split; [reflexivity|].
  apply (clean_data_keeps_contents (processor sample_data) sample_data).
  reflexivity.
Defined.

(** X4. [clean_data] rebinds [self.data] to a new object and leaves the
    objects there were as they were: the frame the processor was given
    is not modified, so a caller that still holds it sees the rows that
    were dropped. *)
Theorem clean_data_rebinds (σ : store) (T : DataFrame) :
  data σ = Some T ->
  self_data (final (clean_data σ)) ≠ self_data σ
  ∧ heap σ !! self_data (final (clean_data σ)) = None
  ∧ ∀ l df, heap σ !! l = Some df ->
            heap (final (clean_data σ)) !! l = Some df.
Proof.
  intros H. rewrite (clean_data_objects σ T H). simpl.
  set (l1 := fresh (dom (heap σ))).
  set (h1 := <[l1 := dropna T]> (heap σ)).
  set (l2 := fresh (dom h1)).
  assert (H1 : heap σ !! l1 = None) by apply fresh_unallocated.
  assert (H2 : h1 !! l2 = None) by apply fresh_unallocated.
  assert (Hsub : heap σ ⊆ h1) by by apply insert_subseteq.
  assert (Hl2 : heap σ !! l2 = None).
  { destruct (heap σ !! l2) eqn:E; [|done].
    eapply lookup_weaken in E; [|exact Hsub]. congruence. }
  split; [|split; [done|]].
  - intros Heq. unfold data in H. congruence.
  - intros l df Hl. eapply lookup_weaken; [|by apply insert_subseteq].
    by eapply lookup_weaken.
Qed.

Lemma clean_data_rebinds_witness :
  heap (final (clean_data (processor sample_data))) !! 1%positive
  = Some sample_data.
Proof.
  refine (proj2 (proj2 (clean_data_rebinds (processor sample_data)
                          sample_data _)) 1%positive sample_data _);
    reflexivity.
Defined.

(** X5. Conditions compose: when [filter_data] with [conds1] returns
    the table [T1], [filter_data] with [conds1 ++ conds2] gives what
    [filter_data] with [conds2] gives on a processor holding [T1], the
    same table or the same exception. *)
Theorem filter_data_composes (K : Kernels) (σ : store) (T T1 : DataFrame)
    (conds1 conds2 : list condition) :
  data σ = Some T ->
  returned (filter_data K conds1 σ) = Normal T1 ->
  returned (filter_data K (conds1 ++ conds2) σ)
  = returned (filter_data K conds2 (processor T1)).
Proof.
  intros H H1.
  rewrite (filter_data_table K conds1 σ T H) in H1.
  rewrite (filter_data_table K (conds1 ++ conds2) σ T H).
  rewrite (filter_data_table K conds2 (processor T1) T1) by reflexivity.
  by rewrite filter_table_app, H1.
Qed.

Lemma filter_data_composes_witness :
  returned (filter_data exact
              ([("value", "greater_than", SInt 20)]
               ++ [("category", "equals", SStr "A")])
              (processor sample_data))
  = returned (filter_data exact [("category", "equals", SStr "A")]
                (processor
                   (Frame ["id"; "value"; "category"; "nullable"]
                      [ (2, [int 3; int 30; str "A"; int 3]);
                        (3, [int 4; int 40; str "C"; NA]);
                        (4, [int 5; int 50; str "B"; int 5]) ]%Z))).
Proof.
  apply (filter_data_composes exact (processor sample_data) sample_data);
    reflexivity.
Defined.

Lemma cmp_of_supported operator :
  is_Some (cmp_of operator)
  ↔ operator ∈ ["equals"; "greater_than"; "less_than"].
Proof.
  unfold cmp_of. rewrite !elem_of_cons, elem_of_nil.
  repeat case_bool_decide; split;
    try (intros _; by eexists); try tauto; by intros [? [=]].
Qed.

(** X6. [filter_data] returns a table only when every condition names
    one of the three operators and a column of the table. *)
Theorem filter_data_success_requires (K : Kernels) (σ : store)
    (T : DataFrame) (conds : list condition) (l : loc) :
  data σ = Some T ->
  result (filter_data K conds σ) = Normal l ->
  ∀ column operator value, (column, operator, value) ∈ conds ->
    operator ∈ ["equals"; "greater_than"; "less_than"]
    ∧ column ∈ columns T.
Proof.
  intros H Hl.
  assert (Htable : ∃ T', filter_table K T conds = Normal T').
  { destruct (filter_data_run K conds σ T H) as [_ Hres].
    destruct (Hres l Hl) as (_ & T' & HT' & _). exists T'.
    rewrite <- (filter_data_table K conds σ T H).
    unfold returned. unfold result in Hl. unfold final in HT'.
    by rewrite Hl, HT'. }
  clear H Hl. destruct Htable as [T' HT']. revert T HT'.
  induction conds as [|c conds IH]; intros T HT' column operator value Hin.
  - by apply elem_of_nil in Hin.
  - simpl in HT'. destruct (apply_condition K T c) as [T1|e] eqn:Hc; [|done].
    apply apply_condition_normal in Hc as (Hcols & Hop & Hcol).
    apply elem_of_cons in Hin as [<-|Hin].
    + simpl in *. split; [by apply cmp_of_supported|done].
    + rewrite <- Hcols. by eapply IH.
Qed.

Lemma filter_data_success_requires_witness :
  "greater_than" ∈ ["equals"; "greater_than"; "less_than"]
  ∧ "value" ∈ columns sample_data.
Proof.
  apply (filter_data_success_requires exact (processor sample_data)
           sample_data
           [("value", "greater_than", SInt 20);
            ("category", "equals", SStr "A")] 4%positive
           eq_refl eq_refl "value" "greater_than" (SInt 20)).
  by left.
Defined.



Lemma generate_summary_run D σ T :
  data σ = Some T ->
  generate_summary D σ
  = (Normal {| shape := (length (rows T), length (columns T));
               summary_columns := columns T;
               missing_values := isnull_sum T;
               numeric_columns :=
                 List.filter (fun label => is_number D (column_dtype D T label))
                             (columns T) |},
     σ).
Proof.
  unfold data. intros H.
  assert (Hd : deref (self_data σ) σ = (Normal T, σ)).
  { unfold deref. by rewrite H. }
  unfold generate_summary.
  by do 4 rewrite bind_gets, (bind_normal _ _ _ _ _ Hd).
Qed.

Lemma filter_fixed {A} (f : A -> bool) xs :
  List.filter f xs = xs -> Forall (fun x => f x = true) xs.
Proof.
  induction xs as [|x xs IH]; simpl; [constructor|].
  destruct (f x) eqn:Hx.
  - intros [= Heq]. constructor; auto.
  - intros Heq. pose proof (sublist_length _ _ (filter_sublist f xs)) as Hlen.
    rewrite Heq in Hlen. simpl in Hlen. lia.
Qed.

Lemma no_missing_counts T :
  well_formed T ->
  Forall (fun p => snd p = 0%nat) (isnull_sum T)
  ↔ Forall (fun r => complete r = true) (rows T).
Proof.
  intros Hwf. rewrite isnull_sum_zero. unfold well_formed in Hwf.
  rewrite Forall_forall in Hwf. rewrite Forall_forall. split.
  - intros H r Hr. unfold complete. apply complete_nth. intros i Hi.
    rewrite (Hwf r Hr) in Hi.
    by apply (proj1 (null_count_zero T i) (H i Hi)).
  - intros H i Hi. apply null_count_zero. intros r Hr.
    apply (proj1 (complete_nth (snd r)) (H r Hr)). by rewrite (Hwf r Hr).
Qed.

(** X8. The counts of missing values in the summary are all 0 exactly
    when [dropna] would remove no row, on a table whose rows have a
    cell for every column. *)
Theorem summary_missing_values_zero (D : Dtypes) (σ : store) (T : DataFrame) :
  data σ = Some T ->
  well_formed T ->
  ∃ s, generate_summary D σ = (Normal s, σ)
       ∧ (Forall (fun p => snd p = 0%nat) (missing_values s)
          ↔ dropna T = T).
Proof.
  intros H Hwf. eexists. split; [by apply generate_summary_run|]. simpl.
  rewrite (no_missing_counts T Hwf). unfold dropna. split.
  - intros Hall. rewrite filter_all by done. apply frame_eta.
  - intros Heq. apply filter_fixed.
    apply (f_equal rows) in Heq. exact Heq.
Qed.

Lemma summary_missing_values_zero_witness :
  ∃ s, generate_summary by_cells (processor tidy_data)
       = (Normal s, processor tidy_data)
       ∧ (Forall (fun p => snd p = 0%nat) (missing_values s)
          ↔ dropna tidy_data = tidy_data).
Proof.
  apply (summary_missing_values_zero by_cells (processor tidy_data) tidy_data).
  - reflexivity.
  - refine (bool_decide_unpack _ _). vm_compute. exact I.
Defined.

(** X9. After [clean_data] the summary reports no missing value in any
    column, and it reports the columns the table had, with at most the
    rows it had. *)
Theorem summary_after_clean (D : Dtypes) (σ : store) (T : DataFrame) :
  data σ = Some T ->
  well_formed T ->
  ∃ s, result (bind clean_data (fun _ => generate_summary D) σ) = Normal s
       ∧ Forall (fun p => snd p = 0%nat) (missing_values s)
       ∧ map fst (missing_values s) = columns T
       ∧ summary_columns s = columns T
       ∧ snd (shape s) = length (columns T)
       ∧ (fst (shape s) <= length (rows T))%nat.
Proof.
  intros H Hwf. destruct (clean_data_run σ T H) as (σ' & Hrun & Hdata).
  rewrite (bind_normal _ _ _ _ _ Hrun), (generate_summary_run D σ' _ Hdata).
  eexists. split; [reflexivity|]. simpl.
  assert (Hsub : unseen [] (List.filter complete (rows T)) `sublist_of` rows T).
  { etrans; [apply unseen_sublist | apply filter_sublist]. }
  split; [|split; [|split; [done|split; [done|by apply sublist_length]]]].
  - apply no_missing_counts.
    + unfold well_formed. simpl. by eapply sublist_keeps_Forall.
    + simpl. eapply sublist_keeps_Forall; [apply unseen_sublist|].
      apply filter_Forall.
  - unfold isnull_sum. simpl. generalize (null_count (drop_duplicates (dropna T))).
    intros count. rewrite fmap_imap. clear.
    induction (columns T) as [|x xs IH] in count |- *; simpl; [done|].
    f_equal. apply IH.
Qed.

Lemma summary_after_clean_witness :
  ∃ s, result (bind clean_data (fun _ => generate_summary by_cells)
                 (processor sample_data)) = Normal s
       ∧ Forall (fun p => snd p = 0%nat) (missing_values s)
       ∧ map fst (missing_values s) = columns sample_data
       ∧ summary_columns s = columns sample_data
       ∧ snd (shape s) = length (columns sample_data)
       ∧ (fst (shape s) <= length (rows sample_data))%nat.
Proof.
  apply (summary_after_clean by_cells (processor sample_data) sample_data).
  - reflexivity.
  - refine (bool_decide_unpack _ _). vm_compute. exact I.
Defined.

(** The cases of the test suite for the summary and the empty
    processor. *)
Example summary_of_sample :
  result (generate_summary by_cells (processor sample_data))
  = Normal {| shape := (5, 4)%nat;
              summary_columns := ["id"; "value"; "category"; "nullable"];
              missing_values := [("id", 0); ("value", 0); ("category", 0);
                                 ("nullable", 2)]%nat;
              numeric_columns := ["id"; "value"; "nullable"] |}.
Proof. reflexivity. Qed.

Example summary_of_empty :
  result (generate_summary by_cells empty_processor)
  = Normal {| shape := (0, 0)%nat; summary_columns := [];
              missing_values := []; numeric_columns := [] |}.
Proof. reflexivity. Qed.

End TabularMoreSpec.

(** ** More of the documentation validator *)

Module DocsMoreFacts.
Import Docs DocsFacts DocsMore.

Lemma for_fold_app_run {S A B} (body : B -> A -> M S B) xs ys : ∀ acc s,
  for_fold body acc (xs ++ ys) s
  = bind (for_fold body acc xs) (fun acc' => for_fold body acc' ys) s.
Proof.
  induction xs as [|x xs IH]; intros acc s; [reflexivity|].
  simpl app. rewrite !for_fold_cons. unfold bind.
  destruct (body acc x s) as [[acc'|e] s']; [|done].
  rewrite IH. reflexivity.
Qed.

Lemma for_fold_ext {S A B} (body body' : B -> A -> M S B) xs :
  (∀ acc x s, x ∈ xs -> body acc x s = body' acc x s) ->
  ∀ acc s, for_fold body acc xs s = for_fold body' acc xs s.
Proof.
  induction xs as [|x xs IH]; intros Hext acc s; [reflexivity|].
  rewrite !for_fold_cons. unfold bind.
  rewrite Hext by by left.
  destruct (body' acc x s) as [[acc'|e] s']; [|done].
  apply IH. intros. apply Hext. by right.
Qed.

(** *** Scans *)

Lemma scanned_nothing : scanned (fun acc => ret acc) [] [].
Proof.
  intros acc d k e0 w0. unfold ret. by rewrite andb_true_r, !app_nil_r.
Qed.


Lemma scanned_bind (run : bool -> V bool) (next : bool -> V bool)
    es ws es' ws' :
  scanned run es ws -> scanned next es' ws' ->
  scanned (fun acc => bind (run acc) next) (es ++ es') (ws ++ ws').
Proof.
  intros Hrun Hnext acc d k e0 w0. unfold bind.
  rewrite Hrun, Hnext, nil_app_decide. by rewrite andb_assoc, !app_assoc.
Qed.

Lemma scanned_for_fold {A} (body : bool -> A -> V bool)
    (es ws : A -> list string) xs :
  (∀ x, x ∈ xs -> scanned (fun acc => body acc x) (es x) (ws x)) ->
  scanned (fun acc => for_fold body acc xs) (flat_map es xs) (flat_map ws xs).
Proof.
  induction xs as [|x xs IH]; intros Hbody.
  - apply scanned_nothing.
  - simpl flat_map. intros acc d k e0 w0. rewrite for_fold_cons.
    apply (scanned_bind (fun acc => body acc x)
             (fun acc => for_fold body acc xs)).
    + apply Hbody. by left.
    + apply IH. intros y Hy. apply Hbody. by right.
Qed.

(** A loop whose body reports the items that fail a test. *)
Lemma scanned_filter_in {A} (test : A -> bool) (msg : A -> string)
    (body : bool -> A -> V bool) xs :
  (∀ acc x s, x ∈ xs ->
              body acc x s
              = (if test x then errors_append (msg x) ;;; ret false
                 else ret acc) s) ->
  scanned (fun acc => for_fold body acc xs)
          (map msg (List.filter test xs)) [].
Proof.
  induction xs as [|x xs IH]; intros Hbody; [apply scanned_nothing|].
  intros acc d k e0 w0. rewrite for_fold_cons. unfold bind at 1.
  rewrite Hbody by by left. simpl List.filter.
  assert (Hrest : scanned (fun acc => for_fold body acc xs)
                          (map msg (List.filter test xs)) []).
  { apply IH. intros acc' y s' Hy. apply Hbody. by right. }
  destruct (test x); simpl map.
  - unfold bind, errors_append, modify, ret. simpl. rewrite Hrest.
    by rewrite andb_false_r, <- app_assoc.
  - unfold ret. by rewrite Hrest.
Qed.

Lemma scanned_filter {A} (test : A -> bool) (msg : A -> string)
    (body : bool -> A -> V bool) xs :
  (∀ acc x s, body acc x s
              = (if test x then errors_append (msg x) ;;; ret false
                 else ret acc) s) ->
  scanned (fun acc => for_fold body acc xs)
          (map msg (List.filter test xs)) [].
Proof. intros Hbody. apply scanned_filter_in. intros. apply Hbody. Qed.



(** A scan that appends no warning, run from a validator. *)
Lemma scanned_run (run : bool -> V bool) es v :
  scanned run es [] ->
  run true v
  = (Normal (bool_decide (es = [])),
     Validator (docs_dir v) (mkdocs_file v) (errors v ++ es) (warnings v)).
Proof.
  intros Hrun. destruct v as [d k e0 w0]. rewrite Hrun. simpl.
  by rewrite app_nil_r.
Qed.

Lemma scanned_loop_run {A} (body : bool -> A -> V bool) xs es v :
  scanned (fun acc => for_fold body acc xs) es [] ->
  for_fold body true xs v
  = (Normal (bool_decide (es = [])),
     Validator (docs_dir v) (mkdocs_file v) (errors v ++ es) (warnings v)).
Proof. apply (scanned_run (fun acc => for_fold body acc xs)). Qed.


(** *** The heading loop, warning by warning *)

Lemma heading_loop_run md_file headings : ∀ level d k e0 w0,
  ∃ last,
    for_fold (heading_step md_file) level headings (Validator d k e0 w0)
    = (Normal last, Validator d k e0 (w0 ++ skipped md_file level headings)).
Proof.
  induction headings as [|[hashes title] hs IH]; intros level d k e0 w0.
  - exists level. simpl. unfold ret. by rewrite app_nil_r.
  - rewrite for_fold_cons. unfold bind at 1. unfold heading_step at 1.
    simpl skipped. unfold bind, warnings_append, modify, ret. simpl.
    destruct (_ >? _)%Z; simpl.
    + destruct (IH (Z.of_nat (String.length hashes)) d k e0
                  (w0 ++ [skipped_heading md_file title])) as [last Hl].
      exists last. etrans; [exact Hl|]. by rewrite <- app_assoc.
    + destruct (IH (Z.of_nat (String.length hashes)) d k e0 w0) as [last Hl].
      exists last. exact Hl.
Qed.

Lemma skipped_none md_file headings : ∀ level,
  skipped md_file level headings = [] ↔ stepwise level headings.
Proof.
  induction headings as [|[hashes title] hs IH]; intros level; simpl.
  - tauto.
  - rewrite <- IH. destruct (_ >? _)%Z eqn:Hgt; simpl.
    + apply Z.gtb_lt in Hgt. split; [done|]. intros [? _]. lia.
    + split; [|tauto]. intros ->. split; [|done].
      destruct (Z.gtb_spec (Z.of_nat (String.length hashes) - level) 1);
        [done|lia].
Qed.

Lemma markdown_file_scanned w md_file :
  readable w md_file ->
  scanned (fun acc => markdown_file w acc md_file)
          (render_errors w md_file) (heading_warnings w md_file).
Proof.
  intros [content Hread] acc d k e0 w0.
  unfold markdown_file, render_errors, heading_warnings, text_of.
  rewrite Hread, bind_lift.
  destruct (heading_loop_run md_file (find_headings w content) 0 d k e0 w0)
    as [last Hloop].
  rewrite (bind_normal _ _ _ _ _ Hloop).
  unfold try_except, bind, lift, errors_append, modify, ret.
  destruct (render w content) as [[]|e]; simpl.
  - by rewrite andb_true_r, app_nil_r.
  - by rewrite andb_false_r.
Qed.

(** *** Substrings, whatever the case *)

Lemma prefix_app (s post : string) : String.prefix s (s +:+ post) = true.
Proof.
  induction s as [|c s IH]; simpl; [by destruct post|].
  by destruct (Ascii.ascii_dec c c).
Qed.

Lemma contains_app (pre s post : string) :
  contains (pre +:+ s +:+ post) s = true.
Proof.
  induction pre as [|c pre IH].
  - change ("" +:+ s +:+ post) with (s +:+ post).
    assert (Hunfold : ∀ hay, contains hay s
              = String.prefix s hay
                || match hay with
                   | EmptyString => false
                   | String _ rest => contains rest s
                   end) by by intros [].
    by rewrite Hunfold, prefix_app.
  - simpl. rewrite IH. apply orb_true_r.
Qed.

Lemma lower_app (a b : string) : lower (a +:+ b) = lower a +:+ lower b.
Proof. induction a as [|c a IH]; simpl; [done|]. by rewrite IH. Qed.


Lemma flat_map_nil_iff {A B} (f : A -> list B) xs :
  flat_map f xs = [] ↔ Forall (fun x => f x = []) xs.
Proof.
  induction xs as [|x xs IH]; simpl.
  - split; [constructor|done].
  - split.
    + intros [Hx Hxs]%app_eq_nil. constructor; [done|by apply IH].
    + intros H. inversion H as [|? ? Hx Hxs]; subst.
      rewrite Hx. by apply IH.
Qed.

Lemma app_fixed {A} (l extra : list A) : l ++ extra = l ↔ extra = [].
Proof.
  split; [|intros ->; apply app_nil_r].
  intros H. apply (f_equal length) in H. rewrite length_app in H.
  destruct extra; [done|simpl in H; lia].
Qed.

(** *** [validate_nav_item] returns, and fails on a title that is not
    a string *)

Lemma total_ret {A} (a : A) : total (ret a : V A).
Proof. intros v. by eexists _, _. Qed.

Lemma total_bind {A B} (m : V A) (f : A -> V B) :
  total m -> (∀ a, total (f a)) -> total (bind m f).
Proof.
  intros Hm Hf v. destruct (Hm v) as (a & v' & Hv).
  destruct (Hf a v') as (b & v'' & Hv').
  exists b, v''. unfold bind. by rewrite Hv.
Qed.

Lemma total_errors_append msg : total (errors_append msg).
Proof. intros v. by eexists _, _. Qed.

Lemma total_for_fold {A B} (body : B -> A -> V B) xs :
  (∀ acc x, x ∈ xs -> total (body acc x)) ->
  ∀ acc, total (for_fold body acc xs).
Proof.
  induction xs as [|x xs IH]; intros Hbody acc; [apply total_ret|].
  rewrite for_fold_cons. apply total_bind.
  - apply Hbody. by left.
  - intros b. apply IH. intros acc' y Hy. apply Hbody. by right.
Qed.

Lemma validate_nav_item_total item :
  total (validate_nav_item item)
  ∧ (∀ children, item = YList children ->
       ∀ c, c ∈ children -> total (validate_nav_item c)).
Proof.
  induction item as [| | | | items IH | entries IH] using yaml_nested_ind;
    (split; [|try discriminate]); try apply total_ret.
  - intros children [= <-] c Hc.
    rewrite Forall_forall in IH. apply (IH c Hc).
  - rewrite validate_nav_item_dict.
    apply total_for_fold. intros success entry Hentry.
    rewrite Forall_forall in IH. specialize (IH entry Hentry).
    apply total_bind.
    + destruct (negb _); [|apply total_ret].
      apply total_bind; [apply total_errors_append|intros; apply total_ret].
    + intros success'.
      destruct (snd entry) as [| | | | children |]; try apply total_ret.
      apply total_for_fold. intros acc c Hc.
      apply total_bind; [|intros; apply total_ret].
      by apply (proj2 IH children eq_refl).
Qed.

Lemma never_true_bind {A} (m : V A) (f : A -> V bool) :
  (∀ a, never_true (f a)) -> never_true (bind m f).
Proof.
  intros Hf v. unfold bind, result.
  destruct (m v) as [[a|e] v']; [apply Hf|done].
Qed.

Lemma never_true_for_fold {A} (body : bool -> A -> V bool) xs :
  (∀ x, never_true (body false x)) -> never_true (for_fold body false xs).
Proof.
  intros Hbody. induction xs as [|x xs IH]; [by intros v|].
  rewrite for_fold_cons. intros v. unfold bind, result.
  destruct (body false x v) as [[[]|e] v'] eqn:Hx; [|apply IH|done].
  exfalso. apply (Hbody x v). unfold result. by rewrite Hx.
Qed.

Lemma validate_nav_item_entries entries :
  validate_nav_item (YDict entries) = for_fold nav_entry true entries.
Proof. reflexivity. Qed.

Lemma never_true_then (m : V bool) (f : bool -> V bool) :
  never_true m -> never_true (f false) -> never_true (bind m f).
Proof.
  intros Hm Hf v. unfold bind, result.
  destruct (m v) as [[[]|e] v'] eqn:Hv; [|apply Hf|done].
  exfalso. apply (Hm v). unfold result. by rewrite Hv.
Qed.

Lemma nav_rest_false value :
  never_true
    (match value with
     | YList children =>
         for_fold (fun success child =>
           r <- validate_nav_item child ;;
           ret (success && r)) false children
     | _ => ret false
     end).
Proof.
  destruct value as [| | | | children |]; try by intros v.
  apply never_true_for_fold. intros child.
  apply never_true_bind. by intros r v.
Qed.

Lemma nav_entry_false entry : never_true (nav_entry false entry).
Proof.
  intros v.
  assert (Hfirst : ∃ v',
    (if negb (is_str_key (fst entry)) then
       errors_append
         ("Invalid navigation title: " +:+ key_str (fst entry)) ;;;
       ret false
     else ret false) v = (Normal false, v')).
  { destruct (negb _); by eexists. }
  destruct Hfirst as [v' Hfirst]. unfold nav_entry.
  rewrite (bind_normal _ _ _ _ _ Hfirst). apply nav_rest_false.
Qed.

Lemma nav_entry_bad acc key value :
  is_str_key key = false -> never_true (nav_entry acc (key, value)).
Proof.
  intros Hkey v. unfold nav_entry. simpl fst. simpl snd. rewrite Hkey.
  change (negb false) with true. cbv iota.
  rewrite (bind_normal _ _ v false
             (Validator (docs_dir v) (mkdocs_file v)
                (errors v ++ ["Invalid navigation title: " +:+ key_str key])
                (warnings v)) eq_refl).
  apply nav_rest_false.
Qed.

Lemma validate_nav_item_bad_title entries key value :
  (key, value) ∈ entries -> is_str_key key = false ->
  never_true (validate_nav_item (YDict entries)).
Proof.
  intros Hin Hkey. rewrite validate_nav_item_entries.
  generalize true. induction entries as [|entry entries IH]; intros acc.
  - by apply elem_of_nil in Hin.
  - rewrite for_fold_cons. apply elem_of_cons in Hin as [<-|Hin].
    + apply never_true_then; [by apply nav_entry_bad|].
      apply never_true_for_fold. intros x. apply nav_entry_false.
    + intros v. unfold bind, result.
      destruct (nav_entry acc entry v) as [[[]|e] v'] eqn:Hm.
      * by apply IH.
      * apply never_true_for_fold. intros x. apply nav_entry_false.
      * done.
Qed.

Lemma all_of_stops {A} (f : A -> V bool) pre bad post :
  never_true (f bad) ->
  ∀ v, all_of f (pre ++ bad :: post) v = all_of f (pre ++ [bad]) v.
Proof.
  intros Hbad. induction pre as [|x pre IH]; intros v; simpl; unfold bind.
  - destruct (f bad v) as [[[]|e] v'] eqn:Hb; try done.
    exfalso. apply (Hbad v). unfold result. by rewrite Hb.
  - destruct (f x v) as [[[]|e] v']; auto.
Qed.

Lemma all_of_total {A} (f : A -> V bool) xs :
  (∀ x, total (f x)) -> total (all_of f xs).
Proof.
  intros Hf. induction xs as [|x xs IH]; [apply total_ret|].
  simpl. apply total_bind; [apply Hf|].
  intros [|]; [exact IH|apply total_ret].
Qed.

Lemma all_of_fails {A} (f : A -> V bool) xs bad :
  bad ∈ xs -> never_true (f bad) -> never_true (all_of f xs).
Proof.
  intros Hin Hbad. induction xs as [|x xs IH]; [by apply elem_of_nil in Hin|].
  simpl. intros v. unfold bind, result.
  destruct (f x v) as [[[]|e] v'] eqn:Hx; try done.
  apply elem_of_cons in Hin as [<-|Hin].
  - exfalso. apply (Hbad v). unfold result. by rewrite Hx.
  - by apply IH.
Qed.

(** On the YAML of a manifest node every title is a string. *)
Lemma validate_nav_nodes children :
  Forall (fun n => ∀ v, validate_nav_item (nav_yaml n) v = (Normal true, v))
         children ->
  ∀ v, for_fold (fun success child =>
                   r <- validate_nav_item child ;; ret (success && r))
         true (map nav_yaml children) v
       = (Normal true, v).
Proof.
  induction 1 as [|n ns Hn _ IH]; intros v; [reflexivity|].
  simpl map. rewrite for_fold_cons. unfold bind at 1. unfold bind at 1.
  rewrite Hn. simpl. apply IH.
Qed.

Lemma validate_nav_node n :
  ∀ v, validate_nav_item (nav_yaml n) v = (Normal true, v).
Proof.
  induction n as [title path | title children IH] using nav_node_nested_ind;
    intros v; [reflexivity|].
  simpl nav_yaml. rewrite validate_nav_item_entries, for_fold_cons.
  unfold nav_entry. simpl fst. simpl snd. simpl negb. cbv iota.
  unfold bind at 1. unfold bind at 1. unfold ret at 1.
  rewrite (validate_nav_nodes children IH). reflexivity.
Qed.

Lemma all_of_nav_nodes nodes :
  ∀ v, all_of validate_nav_item (map nav_yaml nodes) v = (Normal true, v).
Proof.
  induction nodes as [|n nodes IH]; intros v; [reflexivity|].
  simpl. unfold bind. by rewrite validate_nav_node.
Qed.

(** What the two checks that load the manifest do up to the items. *)
Lemma check_files_exist_items w v entries nav items :
  open_yaml w (mkdocs_file v) = Normal (YDict entries) ->
  default (YList []) (dict_lookup "nav" entries) = nav ->
  py_iter nav = Normal items ->
  check_files_exist w v = for_fold (check_nav_item w) true items v.
Proof.
  intros Hopen Hnav Hiter. unfold check_files_exist, check_nav_items.
  rewrite bind_gets, Hopen, bind_lift. simpl get_nav. rewrite Hnav.
  by rewrite bind_lift, Hiter, bind_lift.
Qed.

Lemma validate_navigation_items w v entries nav items :
  open_yaml w (mkdocs_file v) = Normal (YDict entries) ->
  default (YList []) (dict_lookup "nav" entries) = nav ->
  py_iter nav = Normal items ->
  validate_navigation w v = all_of validate_nav_item items v.
Proof.
  intros Hopen Hnav Hiter. unfold validate_navigation.
  rewrite bind_gets, Hopen, bind_lift. simpl get_nav. rewrite Hnav.
  by rewrite bind_lift, Hiter, bind_lift.
Qed.

(** *** A check that raises, inside [validate_all] *)

Lemma guarded_all_app xs ys v :
  guarded_all (xs ++ ys) v
  = (fst (guarded_all xs v) && fst (guarded_all ys (snd (guarded_all xs v))),
     snd (guarded_all ys (snd (guarded_all xs v)))).
Proof.
  revert v. induction xs as [|x xs IH]; intros v; simpl.
  - by destruct (guarded_all ys v).
  - destruct (guarded x v) as [b v1]. rewrite IH.
    destruct (guarded_all xs v1) as [b' v2]. simpl.
    by rewrite andb_assoc.
Qed.

Lemma guarded_all_grows cs v :
  Forall (fun c => tracked (flag true) (snd c)) cs ->
  mkdocs_file (snd (guarded_all cs v)) = mkdocs_file v
  ∧ ∃ es, errors (snd (guarded_all cs v)) = errors v ++ es.
Proof.
  intros Hcs. destruct v as [d k e0 w0].
  destruct (run_checks_tracked cs Hcs true d k) as (r & es & ws & Ha & _).
  specialize (Ha e0 w0). rewrite run_checks_guarded in Ha.
  injection Ha as _ Hv. rewrite Hv. simpl. eauto.
Qed.

Lemma guarded_all_raising xs c ys v msg :
  Forall (fun c => tracked (flag true) (snd c)) xs ->
  Forall (fun c => tracked (flag true) (snd c)) ys ->
  (∀ v', mkdocs_file v' = mkdocs_file v ->
         ∃ e, snd c v' = (Raised e, v') ∧ exn_str e = msg) ->
  fst (guarded_all (xs ++ c :: ys) v) = false
  ∧ ("Error in " +:+ fst c +:+ ": " +:+ msg)
      ∈ errors (snd (guarded_all (xs ++ c :: ys) v)).
Proof.
  intros Hxs Hys Hc. rewrite guarded_all_app.
  destruct (guarded_all_grows xs v Hxs) as [Hk _].
  destruct (Hc _ Hk) as (e & Hraise & <-).
  set (v1 := snd (guarded_all xs v)) in *.
  set (v2 := Validator (docs_dir v1) (mkdocs_file v1)
               (errors v1 ++ ["Error in " +:+ fst c +:+ ": " +:+ exn_str e])
               (warnings v1)).
  assert (Hg : guarded c v1 = (false, v2)).
  { unfold guarded, M in *. by rewrite Hraise. }
  change (guarded_all (c :: ys) v1)
    with (let (passed, v1') := guarded c v1 in
          let (rest, v2') := guarded_all ys v1' in (passed && rest, v2')).
  rewrite Hg.
  destruct (guarded_all_grows ys v2 Hys) as [_ [es Hes]].
  destruct (guarded_all ys v2) as [b v3]. simpl in *.
  split; [apply andb_false_r|].
  rewrite Hes. apply elem_of_app. left. apply elem_of_app. right. by left.
Qed.

(** *** The external-link scan *)

Lemma linked_ret acc : linked acc (ret acc).
Proof.
  destruct acc as [s0 C0].
  intros v. exists [], []. unfold ret, final, result. simpl.
  rewrite app_nil_r. split; [by destruct v|].
  split; [constructor|]. split; [constructor|].
  split; [by intros u ?%elem_of_nil|].
  intros s C [= <- <-].
  split; [done|]. split; [by intros u ?%elem_of_nil|]. tauto.
Qed.

Lemma linked_bind acc (m : V (bool * gset string))
    (f : bool * gset string -> V (bool * gset string)) :
  linked acc m -> (∀ acc', linked acc' (f acc')) -> linked acc (bind m f).
Proof.
  intros Hm Hf v.
  destruct (Hm v) as (es1 & urls1 & Hfin1 & Hrep1 & Hnd1 & Hnew1 & Hres1).
  unfold bind, final, result in *.
  destruct (m v) as [[[s1 C1]|e] v1] eqn:Hmv; simpl in *.
  - destruct (Hres1 s1 C1 eq_refl) as (Hsub1 & Hin1 & Hflag1).
    destruct (Hf (s1, C1) v1)
      as (es2 & urls2 & Hfin2 & Hrep2 & Hnd2 & Hnew2 & Hres2).
    unfold final, result in *. simpl in *.
    exists (es1 ++ es2), (urls1 ++ urls2). subst v1. simpl in *.
    split; [by rewrite Hfin2, app_assoc|].
    split; [by apply Forall2_app|]. split.
    { apply NoDup_app. split; [done|]. split; [|done].
      intros u Hu1 Hu2. by apply (Hnew2 u Hu2), Hin1. }
    split.
    { intros u [Hu|Hu]%elem_of_app; [by apply Hnew1|].
      intros HC. apply (Hnew2 u Hu). by apply Hsub1. }
    intros s2 C2 Hr. destruct (Hres2 s2 C2 Hr) as (Hsub2 & Hin2 & Hflag2).
    split; [by etrans|]. split.
    { intros u [Hu|Hu]%elem_of_app; [by apply Hsub2, Hin1|by apply Hin2]. }
    rewrite Hflag2, Hflag1. split.
    + by intros [[-> ->] ->].
    + by intros [-> [-> ->]%app_eq_nil].
  - exists es1, urls1. do 4 (split; [done|]). by intros s2 C2 [=].
Qed.

Lemma linked_for_fold {A} (body : bool * gset string -> A
                                  -> V (bool * gset string)) xs :
  (∀ acc x, linked acc (body acc x)) ->
  ∀ acc, linked acc (for_fold body acc xs).
Proof.
  intros Hbody. induction xs as [|x xs IH]; intros acc; [apply linked_ret|].
  rewrite for_fold_cons. apply linked_bind; [apply Hbody|apply IH].
Qed.

Section ExternalFacts.
Context (w : World) (net : Network).

Lemma linked_external_link md_file acc text_url :
  linked acc (external_link net md_file acc text_url).
Proof.
  destruct acc as [s0 C0], text_url as [text url].
  unfold external_link. simpl fst. simpl snd.
  case_bool_decide as Hseen; simpl negb; cbv iota; [apply linked_ret|].
  intros v. unfold bind, check_url, try_except_only, bind, lift, final, result.
  destruct (requests_head net url) as [status|e]; simpl.
  - destruct (status >=? 400)%Z; simpl.
    + exists ["Broken external link in " +:+ md_file +:+ ": " +:+ url], [url].
      split; [done|]. split; [repeat constructor; exists md_file; by left|].
      split; [apply NoDup_singleton|].
      split; [by intros u ->%list_elem_of_singleton|].
      intros s C [= <- <-]. split; [apply union_subseteq_r|]. split.
      * intros u ->%list_elem_of_singleton.
        apply elem_of_union. left. by apply elem_of_singleton.
      * split; [done|]. by intros [_ ?].
    + exists [], []. rewrite app_nil_r. split; [by destruct v|].
      split; [constructor|]. split; [constructor|].
      split; [by intros u ?%elem_of_nil|].
      intros s C [= <- <-]. split; [apply union_subseteq_r|].
      split; [by intros u ?%elem_of_nil|]. tauto.
  - destruct (is_request_exception net e); simpl.
    + exists ["Failed to access external link in " +:+ md_file +:+ ": "
              +:+ url], [url].
      split; [done|]. split; [repeat constructor; exists md_file; by right|].
      split; [apply NoDup_singleton|].
      split; [by intros u ->%list_elem_of_singleton|].
      intros s C [= <- <-]. split; [apply union_subseteq_r|]. split.
      * intros u ->%list_elem_of_singleton.
        apply elem_of_union. left. by apply elem_of_singleton.
      * split; [done|]. by intros [_ ?].
    + exists [], []. rewrite app_nil_r. split; [by destruct v|].
      split; [constructor|]. split; [constructor|].
      split; [by intros u ?%elem_of_nil|]. by intros s C [=].
Qed.

Lemma linked_external_file acc md_file :
  linked acc (external_file w net acc md_file).
Proof.
  unfold external_file. destruct (read_text w md_file) as [content|e].
  - intros v. rewrite bind_lift.
    apply (linked_for_fold (external_link net md_file)).
    intros acc' x. apply linked_external_link.
  - intros v. exists [], []. unfold bind, lift, final, result. simpl.
    rewrite app_nil_r. split; [by destruct v|].
    split; [constructor|]. split; [constructor|].
    split; [by intros u ?%elem_of_nil|]. by intros s C [=].
Qed.

End ExternalFacts.

End DocsMoreFacts.

Module DocsMoreSpec.
Import Docs DocsFacts DocsMore DocsMoreFacts Sample.

Lemma shouting_api_readable :
  Forall (readable shouting_api) (rglob_md shouting_api "docs").
Proof. repeat constructor; eexists; reflexivity. Qed.





(** X12. With the API directory and the processor page in place and
    the page readable, [validate_api_docs] appends one error for each
    of the three required sections whose name does not occur in the
    page, in the order Class Documentation, Methods, Examples, and
    returns true exactly when none is missing. *)
Theorem validate_api_docs_sections (w : World) (v : DocsValidator)
    (content : string) :
  path_exists w (path_join w (docs_dir v) "api") = Normal true ->
  path_exists w (path_join w (path_join w (docs_dir v) "api")
                   "data_processor.md") = Normal true ->
  read_text w (path_join w (path_join w (docs_dir v) "api")
                 "data_processor.md") = Normal content ->
  validate_api_docs w v
  = (Normal (bool_decide (missing_sections content = [])),
     Validator (docs_dir v) (mkdocs_file v)
       (errors v ++ map (fun section =>
                           "Missing section in API docs: " +:+ section)
                        (missing_sections content))
       (warnings v)).
Proof.
  intros Hdir Hdoc Hread. unfold validate_api_docs.
  rewrite bind_gets. cbv zeta. rewrite Hdir, bind_lift.
  change (negb true) with false. cbv iota. rewrite Hdoc, bind_lift.
  change (negb true) with false. cbv iota. rewrite Hread, bind_lift.
  rewrite (scanned_loop_run _ _
             (map (fun section => "Missing section in API docs: " +:+ section)
                  (missing_sections content))).
  - by destruct (missing_sections content).
  - unfold missing_sections.
    by apply scanned_filter with
      (test := fun section => negb (contains (lower content) (lower section))).
Qed.

Lemma validate_api_docs_sections_witness :
  validate_api_docs tree (init "docs" "mkdocs.yml")
  = (Normal true, Validator "docs" "mkdocs.yml" [] []).
Proof.
  apply (validate_api_docs_sections tree (init "docs" "mkdocs.yml") api_md);
    reflexivity.
Defined.

(** X13. The sections are looked for without regard to letter case and
    anywhere in the page: when each required name occurs in the page
    in some mix of upper and lower case, [validate_api_docs] returns
    true and records nothing. *)
Theorem validate_api_docs_any_case (w : World) (v : DocsValidator)
    (content : string) :
  path_exists w (path_join w (docs_dir v) "api") = Normal true ->
  path_exists w (path_join w (path_join w (docs_dir v) "api")
                   "data_processor.md") = Normal true ->
  read_text w (path_join w (path_join w (docs_dir v) "api")
                 "data_processor.md") = Normal content ->
  (∀ section, section ∈ required_sections ->
     ∃ pre s post, content = pre +:+ s +:+ post ∧ lower s = lower section) ->
  validate_api_docs w v = (Normal true, v).
Proof.
  intros Hdir Hdoc Hread Hfound.
  assert (Hnone : missing_sections content = []).
  { unfold missing_sections. revert Hfound.
    generalize required_sections. intros sections Hfound.
    induction sections as [|x xs IH]; simpl; [done|].
    destruct (Hfound x) as (pre & s & post & -> & Hs); [by left|].
    rewrite !lower_app, Hs, contains_app. simpl.
    rewrite !lower_app, Hs in IH. apply IH.
    intros y Hy. destruct (Hfound y) as (pre' & s' & post' & Heq & Hs');
      [by right|]. by exists pre', s', post'. }
  unfold validate_api_docs.
  rewrite bind_gets. cbv zeta. rewrite Hdir, bind_lift.
  change (negb true) with false. cbv iota. rewrite Hdoc, bind_lift.
  change (negb true) with false. cbv iota. rewrite Hread, bind_lift.
  rewrite (scanned_loop_run _ _
             (map (fun section => "Missing section in API docs: " +:+ section)
                  (missing_sections content))).
  - rewrite Hnone. simpl. rewrite app_nil_r. by destruct v.
  - unfold missing_sections.
    by apply scanned_filter with
      (test := fun section => negb (contains (lower content) (lower section))).
Qed.

Lemma validate_api_docs_any_case_witness :
  validate_api_docs shouting_api (init "docs" "mkdocs.yml")
  = (Normal true, init "docs" "mkdocs.yml").
Proof.
  apply (validate_api_docs_any_case shouting_api (init "docs" "mkdocs.yml")
           "# CLASS DOCUMENTATION, then methods and EXAMPLES");
    try reflexivity.
  intros section Hs. repeat (apply elem_of_cons in Hs as [->|Hs]).
  - by exists "# ", "CLASS DOCUMENTATION", ", then methods and EXAMPLES".
  - by exists "# CLASS DOCUMENTATION, then ", "methods", " and EXAMPLES".
  - by exists "# CLASS DOCUMENTATION, then methods and ", "EXAMPLES", "".
  - by apply elem_of_nil in Hs.
Defined.





(** X16. When every markdown file can be read, [validate_markdown]
    leaves the warnings as they were exactly when, in every file, no
    heading is more than one level below the heading before it, the
    first heading being at level 1. Going back up by any number of
    levels is never reported. *)
Theorem no_heading_warning_iff_stepwise (w : World) (v : DocsValidator) :
  Forall (readable w) (rglob_md w (docs_dir v)) ->
  warnings (final (validate_markdown w v)) = warnings v
  ↔ Forall (fun f => stepwise 0 (find_headings w (text_of w f)))
           (rglob_md w (docs_dir v)).
Proof.
  intros Hread.
  assert (Hrun : warnings (final (validate_markdown w v))
                 = warnings v
                   ++ flat_map (heading_warnings w) (rglob_md w (docs_dir v))).
  { unfold validate_markdown. rewrite bind_gets.
    destruct v as [d k e0 w0]. simpl docs_dir in *. simpl warnings.
    rewrite (scanned_for_fold (markdown_file w) (render_errors w)
               (heading_warnings w) (rglob_md w d)); [done|].
    intros f Hf. apply markdown_file_scanned.
    rewrite Forall_forall in Hread. by apply Hread. }
  rewrite Hrun, app_fixed, flat_map_nil_iff.
  apply Forall_iff. intros f. unfold heading_warnings. apply skipped_none.
Qed.

Lemma no_heading_warning_iff_stepwise_witness :
  warnings (final (validate_markdown shouting_api (init "docs" "mkdocs.yml")))
  = warnings (init "docs" "mkdocs.yml")
  ↔ Forall (fun f => stepwise 0 (find_headings shouting_api
                                   (text_of shouting_api f)))
           (rglob_md shouting_api (docs_dir (init "docs" "mkdocs.yml"))).
Proof.
  apply (no_heading_warning_iff_stepwise shouting_api
           (init "docs" "mkdocs.yml")).
  repeat constructor; eexists; reflexivity.
Defined.

(** X17. The console shows the line that all checks passed exactly
    when the run recorded neither an error nor a warning and the
    console printed the heading and the line. When it is shown the
    exit status is 0. A run with warnings and no error never shows it,
    and exits with 0 exactly when the console printed the heading and
    the table of the warnings. *)
Theorem passed_line_iff_clean_report (w : World) (c : Console) :
  (passed_line ∈ fst (main w c)
   ↔ errors (validated w) = [] ∧ warnings (validated w) = []
     ∧ console_print c report_heading = Normal tt
     ∧ console_print c passed_line = Normal tt)
  ∧ (passed_line ∈ fst (main w c) -> exit_status w c = 0)
  ∧ (errors (validated w) = [] -> warnings (validated w) ≠ [] ->
     (passed_line ∉ fst (main w c))
     ∧ (exit_status w c = 0
        ↔ console_print c report_heading = Normal tt
          ∧ console_print c (warnings_table (validated w)) = Normal tt)).
Proof.
  destruct (main_run w c) as (success & Hsuccess & Hmain).
  unfold exit_status. rewrite Hmain. cbn [fst snd].
  assert (Hiff : passed_line ∈ final (print_report c (validated w) [])
                 ↔ errors (validated w) = [] ∧ warnings (validated w) = []
                   ∧ console_print c report_heading = Normal tt
                   ∧ console_print c passed_line = Normal tt).
  { split.
    - intros Hin. destruct (passed_line_shown c _ Hin) as [He Hw].
      do 2 (split; [done|]). revert Hin.
      rewrite print_report_without_errors by done.
      unfold closing. rewrite Hw. simpl.
      destruct (console_print c report_heading) as [[]|e];
        [|by intros ?%elem_of_nil].
      destruct (console_print c passed_line) as [[]|e]; [done|].
      unfold final. simpl.
      intros [Hin|Hin%elem_of_nil]%elem_of_cons; [discriminate Hin|done].
    - intros (He & Hw & Hhead & Hline).
      rewrite print_report_without_errors by done.
      unfold closing. rewrite Hw. simpl. rewrite Hhead, Hline.
      unfold final. simpl. apply elem_of_cons. right. apply elem_of_cons.
      by left. }
  split; [exact Hiff|]. split.
  - intros (He & Hw & Hhead & Hline)%Hiff.
    rewrite print_report_without_errors by done.
    unfold closing. rewrite Hw. simpl. rewrite Hhead, Hline.
    unfold result. simpl. by rewrite (proj2 Hsuccess He).
  - intros He Hw. split.
    + intros (_ & Hnone & _)%Hiff. done.
    + rewrite print_report_without_errors by done.
      unfold closing. rewrite bool_decide_eq_false_2 by done.
      rewrite (proj2 Hsuccess He).
      destruct (console_print c report_heading) as [[]|e]; unfold result; simpl.
      * destruct (console_print c (warnings_table (validated w))) as [[]|e];
          simpl; [done|]. split; [done|]. by intros [_ ?].
      * split; [done|]. by intros [? _].
Qed.

(** With the warning that names a directory between square brackets,
    the run without errors shows the heading only and ends with
    status 1 on a console that reads markup, and shows the table and
    ends with status 0 on one that does not. *)
Example warning_table_on_two_consoles :
  main bracket_tree rich = ([report_heading], 1)
  ∧ main bracket_tree plain
    = ([report_heading; warnings_table (validated bracket_tree)], 0).
Proof. split; vm_compute; reflexivity. Qed.

(** *** The navigation checks on manifests of every shape *)

(** X18. On a manifest that loads as a tree of leaves and internal
    nodes every title is a string: [validate_navigation] returns true
    and records nothing, whatever the files are. *)
Theorem validate_navigation_accepts_tree (w : World) (v : DocsValidator)
    (entries : list (ykey * yaml)) (nodes : list nav_node) :
  open_yaml w (mkdocs_file v) = Normal (YDict entries) ->
  dict_lookup "nav" entries = Some (YList (map nav_yaml nodes)) ->
  validate_navigation w v = (Normal true, v).
Proof.
  intros Hopen Hnav.
  rewrite (validate_navigation_items w v entries
             (YList (map nav_yaml nodes)) (map nav_yaml nodes) Hopen);
    [apply all_of_nav_nodes | by rewrite Hnav | done].
Qed.

Lemma validate_navigation_accepts_tree_witness :
  validate_navigation tree (init "docs" "mkdocs.yml")
  = (Normal true, init "docs" "mkdocs.yml").
Proof.
  apply (validate_navigation_accepts_tree tree (init "docs" "mkdocs.yml")
           [ (KStr "site_name", YStr "Demo");
             (KStr "nav", YList (map nav_yaml manifest)) ]
           manifest); reflexivity.
Defined.

(** X19. [validate_navigation] stops at the first top-level item that
    fails. When an item has a title that is not a string, the check
    returns false, and the items after it are not looked at: the run
    ends as the run on the manifest cut after that item ends, so an
    invalid title further down is not reported. *)
Theorem validate_navigation_stops_at_first_failure (w : World)
    (v : DocsValidator) (entries bad : list (ykey * yaml))
    (pre post : list yaml) (key : ykey) (value : yaml) :
  open_yaml w (mkdocs_file v) = Normal (YDict entries) ->
  dict_lookup "nav" entries = Some (YList (pre ++ YDict bad :: post)) ->
  (key, value) ∈ bad ->
  is_str_key key = false ->
  validate_navigation w v = all_of validate_nav_item (pre ++ [YDict bad]) v
  ∧ result (validate_navigation w v) = Normal false.
Proof.
  intros Hopen Hnav Hin Hkey.
  pose proof (validate_nav_item_bad_title bad key value Hin Hkey) as Hbad.
  rewrite (validate_navigation_items w v entries
             (YList (pre ++ YDict bad :: post)) (pre ++ YDict bad :: post)
             Hopen); [|by rewrite Hnav|done].
  split; [by apply all_of_stops|].
  destruct (all_of_total validate_nav_item (pre ++ YDict bad :: post)
              (fun item => proj1 (validate_nav_item_total item)) v)
    as (b & v' & Hrun).
  pose proof (all_of_fails validate_nav_item (pre ++ YDict bad :: post)
                (YDict bad)) as Hfails.
  specialize (Hfails ltac:(apply elem_of_app; right; by left) Hbad v).
  unfold result in *. rewrite Hrun in *. simpl in *. by destruct b.
Qed.

Lemma validate_navigation_stops_at_first_failure_witness :
  validate_navigation (manifest_of (YList numbered_nav) tree)
    (init "docs" "mkdocs.yml")
  = all_of validate_nav_item
      ([YDict [(KStr "Home", YStr "index.md")]]
       ++ [YDict [(KInt 2024, YStr "news.md")]])
      (init "docs" "mkdocs.yml")
  ∧ result (validate_navigation (manifest_of (YList numbered_nav) tree)
              (init "docs" "mkdocs.yml")) = Normal false.
Proof.
  apply (validate_navigation_stops_at_first_failure
           (manifest_of (YList numbered_nav) tree) (init "docs" "mkdocs.yml")
           [(KStr "nav", YList numbered_nav)]
           [(KInt 2024, YStr "news.md")]
           [YDict [(KStr "Home", YStr "index.md")]]
           [YDict [(KBool true, YStr "flags.md")]]
           (KInt 2024) (YStr "news.md")); try reflexivity.
  by left.
Defined.

(** The third item of the numbered manifest has a title that is not a
    string either; only the second is reported. *)
Example numbered_nav_reports_first_only :
  errors (final (validate_navigation (manifest_of (YList numbered_nav) tree)
                   (init "docs" "mkdocs.yml")))
  = ["Invalid navigation title: 2024"].
Proof. reflexivity. Qed.

(** X20. [check_files_exist] looks only at the items of [nav] that are
    mappings. Without a [nav] key, and with a [nav] whose items are all
    plain strings or other values, it returns true and records nothing,
    whether the files named exist or not. *)
Theorem check_files_exist_skips_plain_items (w : World) (v : DocsValidator)
    (entries : list (ykey * yaml)) :
  open_yaml w (mkdocs_file v) = Normal (YDict entries) ->
  (dict_lookup "nav" entries = None
   ∨ ∃ items, dict_lookup "nav" entries = Some (YList items)
              ∧ Forall (fun item => is_mapping item = false) items) ->
  check_files_exist w v = (Normal true, v).
Proof.
  intros Hopen [Hnone | (items & Hnav & Hplain)].
  - rewrite (check_files_exist_items w v entries (YList []) [] Hopen);
      [done | by rewrite Hnone | done].
  - rewrite (check_files_exist_items w v entries (YList items) items Hopen);
      [| by rewrite Hnav | done].
    clear Hnav. induction Hplain as [|item items Hitem _ IH]; [done|].
    rewrite for_fold_cons. unfold bind.
    destruct item; try discriminate Hitem; exact IH.
Qed.

Lemma check_files_exist_skips_plain_items_witness :
  check_files_exist
    (manifest_of (YList [YStr "index.md"; YStr "no_such_page.md"]) tree)
    (init "docs" "mkdocs.yml")
  = (Normal true, init "docs" "mkdocs.yml").
Proof.
  apply (check_files_exist_skips_plain_items
           (manifest_of (YList [YStr "index.md"; YStr "no_such_page.md"]) tree)
           (init "docs" "mkdocs.yml")
           [(KStr "nav", YList [YStr "index.md"; YStr "no_such_page.md"])]);
    [reflexivity|].
  right. eexists. split; [reflexivity|]. by repeat constructor.
Defined.

(** X21. A leaf whose value is neither a string nor a list makes
    [check_files_exist] raise [TypeError] from the path join, when the
    walk reaches it: the existence tests of the leaves before it
    return. The errors of those leaves stay recorded, and the items
    after it are not walked. *)
Theorem check_files_exist_leaf_type_error (w : World) (v : DocsValidator)
    (entries : list (ykey * yaml)) (nodes : list nav_node)
    (key : ykey) (bad : yaml) (post : list yaml) :
  open_yaml w (mkdocs_file v) = Normal (YDict entries) ->
  dict_lookup "nav" entries
  = Some (YList (map nav_yaml nodes ++ YDict [(key, bad)] :: post)) ->
  Forall (fun p => answers w (path_join w (docs_dir v) p))
         (flat_map leaf_paths nodes) ->
  is_path_or_list bad = false ->
  check_files_exist w v
  = (Raised (Exn "TypeError"
               ("unsupported operand type(s) for /: 'PosixPath' and '"
                +:+ type_name bad +:+ "'")),
     Validator (docs_dir v) (mkdocs_file v)
       (errors v
        ++ map (fun p => "Missing file: " +:+ p)
               (missing_files w (docs_dir v) (flat_map leaf_paths nodes)))
       (warnings v)).
Proof.
  intros Hopen Hnav Hanswers Hbad.
  rewrite (check_files_exist_items w v entries _ _ Hopen
             ltac:(by rewrite Hnav) eq_refl).
  rewrite for_fold_app_run. destruct v as [d k e0 w0].
  assert (Hnodes := check_nav_nodes w nodes).
  rewrite (bind_normal _ _ _ _ _
             (Hnodes ltac:(rewrite Forall_forall; intros n _;
                           apply check_nav_node) true d k e0 w0 Hanswers)).
  rewrite for_fold_cons, check_nav_item_dict, for_fold_cons. simpl snd.
  unfold bind, join_docs, raise. simpl.
  by destruct bad.
Qed.

Lemma check_files_exist_leaf_type_error_witness :
  check_files_exist
    (manifest_of
       (YList (map nav_yaml manifest
               ++ YDict [(KStr "Draft", YNull)]
                  :: [YDict [(KStr "Later", YStr "later.md")]]))
       tree)
    (init "docs" "mkdocs.yml")
  = (Raised (Exn "TypeError"
       "unsupported operand type(s) for /: 'PosixPath' and 'NoneType'"),
     Validator "docs" "mkdocs.yml" ["Missing file: docs/guide/usage.md"] []).
Proof.
  apply (check_files_exist_leaf_type_error
           (manifest_of
              (YList (map nav_yaml manifest
                      ++ YDict [(KStr "Draft", YNull)]
                         :: [YDict [(KStr "Later", YStr "later.md")]]))
              tree)
           (init "docs" "mkdocs.yml")
           [(KStr "nav",
             YList (map nav_yaml manifest
                    ++ YDict [(KStr "Draft", YNull)]
                       :: [YDict [(KStr "Later", YStr "later.md")]]))]
           manifest (KStr "Draft") YNull
           [YDict [(KStr "Later", YStr "later.md")]]); try reflexivity.
  repeat constructor; eexists; reflexivity.
Defined.

(** An existence test that raises ends the walk: the leaf with the
    over-long name is not reported as missing, the missing leaf after
    it is not reached, and [validate_all] records the exception under
    the name of the check. *)
Example over_long_leaf_ends_the_walk :
  (∃ msg, result (check_files_exist over_long_tree (init "docs" "mkdocs.yml"))
          = Raised (Exn "OSError" msg))
  ∧ errors (final (check_files_exist over_long_tree
                     (init "docs" "mkdocs.yml"))) = []
  ∧ result (validate_all over_long_tree (init "docs" "mkdocs.yml"))
    = Normal false
  ∧ ∃ msg, head (errors (final (validate_all over_long_tree
                                  (init "docs" "mkdocs.yml"))))
           = Some ("Error in check_files_exist: [Errno 36] File name too long: "
                   +:+ msg).
Proof.
  split; [eexists; vm_compute; reflexivity|].
  split; [vm_compute; reflexivity|].
  split; [vm_compute; reflexivity|].
  eexists. vm_compute. reflexivity.
Qed.

(** X22. A manifest that cannot be loaded is reported twice. The two
    checks that load it, [check_files_exist] and [validate_navigation],
    raise what loading raised and record nothing themselves;
    [validate_all] returns false and records one error under the name
    of each, and still runs the other five checks. *)
Theorem unreadable_manifest_reported_twice (w : World) (v : DocsValidator)
    (e : exn) :
  open_yaml w (mkdocs_file v) = Raised e ->
  check_files_exist w v = (Raised e, v)
  ∧ validate_navigation w v = (Raised e, v)
  ∧ result (validate_all w v) = Normal false
  ∧ ("Error in check_files_exist: " +:+ exn_str e)
      ∈ errors (final (validate_all w v))
  ∧ ("Error in validate_navigation: " +:+ exn_str e)
      ∈ errors (final (validate_all w v)).
Proof.
  intros Hopen.
  assert (Hfiles : ∀ v', mkdocs_file v' = mkdocs_file v ->
            check_files_exist w v' = (Raised e, v')).
  { intros v' Hk. unfold check_files_exist.
    by rewrite bind_gets, Hk, Hopen, bind_lift. }
  assert (Hnav : ∀ v', mkdocs_file v' = mkdocs_file v ->
            validate_navigation w v' = (Raised e, v')).
  { intros v' Hk. unfold validate_navigation.
    by rewrite bind_gets, Hk, Hopen, bind_lift. }
  split; [by apply Hfiles|]. split; [by apply Hnav|].
  unfold validate_all, run_checks. rewrite run_checks_guarded.
  unfold result, final. cbn [fst snd].
  pose proof (checks_flag w) as Hflags. unfold checks in *.
  destruct (guarded_all_raising []
              ("check_files_exist", check_files_exist w)
              [ ("validate_internal_links", validate_internal_links w);
                ("validate_code_blocks", validate_code_blocks w);
                ("validate_api_docs", validate_api_docs w);
                ("validate_navigation", validate_navigation w);
                ("check_image_references", check_image_references w);
                ("validate_markdown", validate_markdown w) ]
              v (exn_str e)) as [Hfalse Hfirst].
  { constructor. }
  { by inversion Hflags. }
  { intros v' Hk. exists e. split; [by apply Hfiles|done]. }
  destruct (guarded_all_raising
              [ ("check_files_exist", check_files_exist w);
                ("validate_internal_links", validate_internal_links w);
                ("validate_code_blocks", validate_code_blocks w);
                ("validate_api_docs", validate_api_docs w) ]
              ("validate_navigation", validate_navigation w)
              [ ("check_image_references", check_image_references w);
                ("validate_markdown", validate_markdown w) ]
              v (exn_str e)) as [_ Hfifth].
  { repeat (apply Forall_cons in Hflags as [? Hflags]).
    repeat (constructor; [done|]). constructor. }
  { repeat (apply Forall_cons in Hflags as [? Hflags]).
    repeat (constructor; [done|]). constructor. }
  { intros v' Hk. exists e. split; [by apply Hnav|done]. }
  simpl app in Hfalse, Hfirst, Hfifth.
  split; [f_equal; exact Hfalse|]. split; [exact Hfirst|exact Hfifth].
Qed.

Lemma unreadable_manifest_reported_twice_witness :
  check_files_exist tree (init "docs" "absent.yml")
  = (Raised (no_such_file "absent.yml"), init "docs" "absent.yml").
Proof.
  refine (proj1 (unreadable_manifest_reported_twice tree
                   (init "docs" "absent.yml")
                   (no_such_file "absent.yml") _)).
  reflexivity.
Defined.

(** *** The external-link check *)

(** X23. [validate_external_links] reports each URL at most once, in
    however many links and files it occurs: the errors it appends are
    about pairwise distinct URLs, each either that the link is broken
    or that it could not be accessed. It appends no warning, and when
    it returns, it returns true exactly when it appended no error. *)
Theorem validate_external_links_once_per_url (w : World) (net : Network)
    (v : DocsValidator) :
  ∃ es urls,
    final (validate_external_links w net v)
    = Validator (docs_dir v) (mkdocs_file v) (errors v ++ es) (warnings v)
    ∧ reports es urls
    ∧ NoDup urls
    ∧ (∀ b, result (validate_external_links w net v) = Normal b ->
            (b = true ↔ es = [])).
Proof.
  destruct (linked_for_fold (external_file w net) (rglob_md w (docs_dir v))
              (linked_external_file w net) (true, ∅) v)
    as (es & urls & Hfin & Hrep & Hnd & _ & Hres).
  exists es, urls. unfold validate_external_links.
  rewrite bind_gets. unfold bind, ret, final, result in *.
  destruct (for_fold (external_file w net) (true, ∅)
              (rglob_md w (docs_dir v)) v) as [[[s C]|e] v'];
    simpl in *; do 3 (split; [done|]).
  - intros b [= <-]. destruct (Hres s C eq_refl) as (_ & _ & Hflag).
    rewrite Hflag. tauto.
  - by intros b [=].
Qed.

(** The dead URL is linked three times in two files and reported once;
    the request that raises is reported as not accessible. *)
Example external_links_of_sample :
  validate_external_links shouting_api small_net (init "docs" "mkdocs.yml")
  = (Normal false,
     Validator "docs" "mkdocs.yml"
       ["Broken external link in docs/index.md: https://a.example/dead";
        "Failed to access external link in docs/guide/install.md: https://c.example/down"]
       []).
Proof. reflexivity. Qed.

End DocsMoreSpec.
